(** * Paint: the undo/redo history of [src/App.js]

    A shallow embedding of the React component [App]: its state variables
    ([isDrawing], [lineWidth], [lineColor], [lineOpacity], [undoStack],
    [redoStack]), the canvas it draws on, and its handlers ([saveState],
    [restoreState], [startDrawing], [draw], [endDrawing], [handleUndo],
    [handleRedo], [validateForm], [handleChange]) as state transformers.

    Every handler runs on the committed state of the last render: React
    flushes the updates of a discrete event (click, mouse down, mouse up)
    and the passive effects they trigger before it dispatches the next
    event, so a handler's closure and the updater argument [prev] agree. *)

From Stdlib Require Import ZArith QArith Qround String List Bool Lia.
Import ListNotations.
Open Scope Z_scope.

(** ** The canvas bitmap *)

(** One pixel of the canvas backing store: 8-bit channels, colour
    premultiplied by alpha. *)
Record Pixel := mkPixel { red : Z; green : Z; blue : Z; alpha : Z }.

Definition transparentBlack : Pixel := mkPixel 0 0 0 0.

(** A bitmap: the canvas element's backing store, or a decoded image. *)
Record Bitmap := mkBitmap {
  width : Z;
  height : Z;
  pixelAt : Z -> Z -> Pixel
}.

Definition inside (b : Bitmap) (x y : Z) : bool :=
  (0 <=? x) && (x <? width b) && (0 <=? y) && (y <? height b).

(** Bit-identical pixel content: same size, same pixel at every position. *)
Definition samePixels (a b : Bitmap) : Prop :=
  width a = width b /\ height a = height b /\
  forall x y, inside a x y = true -> pixelAt a x y = pixelAt b x y.

(** A freshly created canvas is transparent black. *)
Definition blankCanvas (w h : Z) : Bitmap :=
  mkBitmap w h (fun _ _ => transparentBlack).

(** Rounding to the nearest integer. *)
Definition scaleChannel (ga : Q) (c : Z) : Z :=
  Qfloor (ga * inject_Z c + (1 # 2))%Q.

Definition div255 (n : Z) : Z := (2 * n + 255) / 510.

(** Source-over compositing (the default [globalCompositeOperation]) of a
    source pixel whose coverage is scaled by [globalAlpha]. *)
Definition sourceOver (ga : Q) (src dst : Pixel) : Pixel :=
  let sr := scaleChannel ga (red src) in
  let sg := scaleChannel ga (green src) in
  let sb := scaleChannel ga (blue src) in
  let sa := scaleChannel ga (alpha src) in
  let k := 255 - sa in
  mkPixel (sr + div255 (red dst * k)) (sg + div255 (green dst * k))
          (sb + div255 (blue dst * k)) (sa + div255 (alpha dst * k)).

(** [ctx.clearRect(x0, y0, w, h)] *)
Definition clearRect (x0 y0 w h : Z) (b : Bitmap) : Bitmap :=
  mkBitmap (width b) (height b)
    (fun x y =>
       if (x0 <=? x) && (x <? x0 + w) && (y0 <=? y) && (y <? y0 + h)
       then transparentBlack
       else pixelAt b x y).

(** [ctx.drawImage(img, dx, dy)] under the context's [globalAlpha]. *)
Definition drawImage (ga : Q) (img : Bitmap) (dx dy : Z) (b : Bitmap) : Bitmap :=
  mkBitmap (width b) (height b)
    (fun x y =>
       if inside img (x - dx) (y - dy)
       then sourceOver ga (pixelAt img (x - dx) (y - dy)) (pixelAt b x y)
       else pixelAt b x y).

(** ** The 2D rendering context *)

Inductive PathCmd :=
| MoveTo (x y : Z)
| LineTo (x y : Z)
| ClosePath.

(** The context is recorded by the values the program assigned to its
    attributes: [globalAlpha] and [strokeStyle] hold what was last written,
    not what a browser would hand back on a read (it may round the alpha,
    and serialises or ignores the colour string). The program reads one
    attribute back, [globalAlpha] in [onload], and only to write the same
    value again. *)
Module Ctx2D.
Record t := mk {
  lineCap : string;
  lineJoin : string;
  globalAlpha : Q;
  strokeStyle : string;
  lineWidth : Z;
  path : list PathCmd
}.

(** The state of a context as [getContext("2d")] first returns it, before
    the program has assigned anything. *)
Definition fresh : t := mk "butt" "miter" 1%Q "#000000" 1 [].

Definition set_lineCap (v : string) (c : t) : t :=
  mk v (lineJoin c) (globalAlpha c) (strokeStyle c) (lineWidth c) (path c).
Definition set_lineJoin (v : string) (c : t) : t :=
  mk (lineCap c) v (globalAlpha c) (strokeStyle c) (lineWidth c) (path c).
Definition set_globalAlpha (v : Q) (c : t) : t :=
  mk (lineCap c) (lineJoin c) v (strokeStyle c) (lineWidth c) (path c).
Definition set_strokeStyle (v : string) (c : t) : t :=
  mk (lineCap c) (lineJoin c) (globalAlpha c) v (lineWidth c) (path c).
Definition set_lineWidth (v : Z) (c : t) : t :=
  mk (lineCap c) (lineJoin c) (globalAlpha c) (strokeStyle c) v (path c).
Definition set_path (v : list PathCmd) (c : t) : t :=
  mk (lineCap c) (lineJoin c) (globalAlpha c) (strokeStyle c) (lineWidth c) v.

Definition beginPath (c : t) : t := set_path [] c.
Definition moveTo (x y : Z) (c : t) : t := set_path (path c ++ [MoveTo x y]) c.
Definition lineTo (x y : Z) (c : t) : t := set_path (path c ++ [LineTo x y]) c.
Definition closePath (c : t) : t := set_path (path c ++ [ClosePath]) c.
End Ctx2D.

(** ** Array helpers *)

Fixpoint lastElement {A : Type} (l : list A) : option A :=
  match l with
  | [] => None
  | [x] => Some x
  | _ :: r => lastElement r
  end.

(** [Array.prototype.pop]: the removed last element ([undefined] on an empty
    array) and the array that is left. *)
Definition pop {A : Type} (l : list A) : option A * list A :=
  (lastElement l, removelast l).

(** [Array.prototype.shift]: the removed first element and the rest. *)
Definition shift {A : Type} (l : list A) : option A * list A :=
  match l with
  | [] => (None, [])
  | x :: r => (Some x, r)
  end.

(** [a[a.length - 1]] *)
Definition lastIndexed {A : Type} (l : list A) : option A :=
  nth_error l (length l - 1)%nat.

(** The array without the element at position [i]. *)
Definition removeAt {A : Type} (i : nat) (l : list A) : list A :=
  firstn i l ++ skipn (S i) l.

(** ** The component *)

(** The [change] events of the three inputs of [BrushSettingsForm]: the
    colour input carries a string, the two range inputs a number. *)
Inductive ChangeEvent :=
| ColorInput (value : string)
| WidthInput (value : Z)
| OpacityInput (value : Z)
| OtherInput (name : string).

Definition validateForm (e : ChangeEvent) : string :=
  match e with
  | WidthInput value =>
      if (3 <=? value) && (value <=? 20) then EmptyString
      else "Width must be between 3 and 20"%string
  | OpacityInput value =>
      if (1 <=? value) && (value <=? 100) then EmptyString
      else "Opacity must be between 1 and 100"%string
  | _ => EmptyString
  end.

Section App.

(** What the browser provides and the component only calls: the data URLs
    of [canvas.toDataURL()] (the component stores and passes them on, and
    never looks inside), the image decoder behind [img.src = dataUrl], and
    the rasteriser behind [ctx.stroke()]. *)
Context {DataURL : Type}.
Variable toDataURL : Bitmap -> DataURL.
Variable decodeImage : DataURL -> option Bitmap.
Variable strokePath : Ctx2D.t -> Bitmap -> Z -> Z -> Pixel.

Record AppState := mkApp {
  canvas : Bitmap;
  ctx : Ctx2D.t;
  isDrawing : bool;
  lineWidth : Z;
  lineColor : string;
  lineOpacity : Q;
  undoStack : list DataURL;
  redoStack : list DataURL;
  (** the [Image] objects whose [src] is set and whose load has not
      settled yet, oldest first *)
  loading : list DataURL
}.

Definition set_canvas (v : Bitmap) (s : AppState) : AppState :=
  mkApp v (ctx s) (isDrawing s) (lineWidth s) (lineColor s) (lineOpacity s)
        (undoStack s) (redoStack s) (loading s).
Definition set_ctx (v : Ctx2D.t) (s : AppState) : AppState :=
  mkApp (canvas s) v (isDrawing s) (lineWidth s) (lineColor s) (lineOpacity s)
        (undoStack s) (redoStack s) (loading s).
Definition setIsDrawing (v : bool) (s : AppState) : AppState :=
  mkApp (canvas s) (ctx s) v (lineWidth s) (lineColor s) (lineOpacity s)
        (undoStack s) (redoStack s) (loading s).
Definition setLineWidth (v : Z) (s : AppState) : AppState :=
  mkApp (canvas s) (ctx s) (isDrawing s) v (lineColor s) (lineOpacity s)
        (undoStack s) (redoStack s) (loading s).
Definition setLineColor (v : string) (s : AppState) : AppState :=
  mkApp (canvas s) (ctx s) (isDrawing s) (lineWidth s) v (lineOpacity s)
        (undoStack s) (redoStack s) (loading s).
Definition setLineOpacity (v : Q) (s : AppState) : AppState :=
  mkApp (canvas s) (ctx s) (isDrawing s) (lineWidth s) (lineColor s) v
        (undoStack s) (redoStack s) (loading s).
Definition setUndoStack (v : list DataURL) (s : AppState) : AppState :=
  mkApp (canvas s) (ctx s) (isDrawing s) (lineWidth s) (lineColor s)
        (lineOpacity s) v (redoStack s) (loading s).
Definition setRedoStack (v : list DataURL) (s : AppState) : AppState :=
  mkApp (canvas s) (ctx s) (isDrawing s) (lineWidth s) (lineColor s)
        (lineOpacity s) (undoStack s) v (loading s).
Definition set_loading (v : list DataURL) (s : AppState) : AppState :=
  mkApp (canvas s) (ctx s) (isDrawing s) (lineWidth s) (lineColor s)
        (lineOpacity s) (undoStack s) (redoStack s) v.

(** The component before its first effect: the 1280 x 720 canvas of the
    JSX, a fresh context, the initial values of the [useState] calls. *)
Definition initialState : AppState :=
  mkApp (blankCanvas 1280 720) Ctx2D.fresh false 5 "black" (1 # 10)%Q [] [] [].

Definition saveState (s : AppState) : AppState :=
  let dataUrl := toDataURL (canvas s) in
  setUndoStack (undoStack s ++ [dataUrl]) s.

(** The body of [img.onload] in [restoreState], run when the image has
    been decoded. *)
Definition onload (img : Bitmap) (s : AppState) : AppState :=
  let s := set_canvas
             (clearRect 0 0 (width (canvas s)) (height (canvas s)) (canvas s)) s in
  let currentAlpha := Ctx2D.globalAlpha (ctx s) in
  let s := set_ctx (Ctx2D.set_globalAlpha 1%Q (ctx s)) s in
  let s := set_canvas
             (drawImage (Ctx2D.globalAlpha (ctx s)) img 0 0 (canvas s)) s in
  set_ctx (Ctx2D.set_globalAlpha currentAlpha (ctx s)) s.

(** [restoreState] itself only starts the load: the image is decoded in
    the background and [onload] runs on a later turn of the event loop. *)
Definition restoreState (dataUrl : DataURL) (s : AppState) : AppState :=
  set_loading (loading s ++ [dataUrl]) s.

(** The load of [dataUrl] settles: [onload] runs if the data URL decodes; if
    it does not, the image fires [error], for which [restoreState] registers
    no handler. *)
Definition landed (dataUrl : DataURL) (s : AppState) : AppState :=
  match decodeImage dataUrl with
  | Some img => onload img s
  | None => s
  end.

(** The pending load at position [i] settles. Each [restoreState] starts a
    load of its own and nothing orders them: any pending load may be the
    next to settle. *)
Definition imageLands (i : nat) (s : AppState) : AppState :=
  match nth_error (loading s) i with
  | None => s
  | Some dataUrl => landed dataUrl (set_loading (removeAt i (loading s)) s)
  end.

(** The oldest pending load settles. *)
Definition imageSettles (s : AppState) : AppState := imageLands 0 s.

(** The effect of [useEffect], run after the first render and after every
    render in which [lineColor], [lineOpacity] or [lineWidth] changed. *)
Definition effect (s : AppState) : AppState :=
  let c := Ctx2D.set_lineCap "round" (ctx s) in
  let c := Ctx2D.set_lineJoin "round" c in
  let c := Ctx2D.set_globalAlpha (lineOpacity s) c in
  let c := Ctx2D.set_strokeStyle (lineColor s) c in
  let c := Ctx2D.set_lineWidth (lineWidth s) c in
  saveState (set_ctx c s).

Definition mounted : AppState := effect initialState.

Definition startDrawing (x y : Z) (s : AppState) : AppState :=
  let s := set_ctx (Ctx2D.beginPath (ctx s)) s in
  let s := set_ctx (Ctx2D.moveTo x y (ctx s)) s in
  setIsDrawing true s.

Definition endDrawing (s : AppState) : AppState :=
  if isDrawing s then
    let s := set_ctx (Ctx2D.closePath (ctx s)) s in
    let s := setIsDrawing false s in
    let s := saveState s in
    setRedoStack [] s
  else s.

Definition draw (x y : Z) (s : AppState) : AppState :=
  if negb (isDrawing s) then s
  else
    let s := set_ctx (Ctx2D.lineTo x y (ctx s)) s in
    set_canvas
      (mkBitmap (width (canvas s)) (height (canvas s))
                (strokePath (ctx s) (canvas s))) s.

Definition handleUndo (s : AppState) : AppState :=
  if (1 <? length (undoStack s))%nat then
    let (lastState, newUndoStack) := pop (undoStack s) in
    match lastState, lastIndexed newUndoStack with
    | Some lastState, Some top =>
        let s := setRedoStack (lastState :: redoStack s) s in
        let s := setUndoStack newUndoStack s in
        restoreState top s
    | _, _ => s (* not reached: the guard makes both defined *)
    end
  else s.

Definition handleRedo (s : AppState) : AppState :=
  if (0 <? length (redoStack s))%nat then
    let (nextState, newRedoStack) := shift (redoStack s) in
    match nextState with
    | Some nextState =>
        let s := setRedoStack newRedoStack s in
        let s := setUndoStack (undoStack s ++ [nextState]) s in
        restoreState nextState s
    | None => s (* not reached: the guard makes it defined *)
    end
  else s.

(** Whether a render has to re-run the effect: one of its dependencies
    differs from the previous render. *)
Definition depsChanged (old new : AppState) : bool :=
  negb (String.eqb (lineColor old) (lineColor new)
        && Qeq_bool (lineOpacity old) (lineOpacity new)
        && (lineWidth old =? lineWidth new)).

Definition rerender (old new : AppState) : AppState :=
  if depsChanged old new then effect new else new.

(** [handleChange] of [BrushSettingsForm], as far as it reaches [App]: the
    form's own [formValues] and [errors] stay inside the form. *)
Definition handleChange (e : ChangeEvent) (s : AppState) : AppState :=
  let error := validateForm e in
  if String.eqb error EmptyString then
    match e with
    | ColorInput value => rerender s (setLineColor value s)
    | WidthInput value => rerender s (setLineWidth value s)
    | OpacityInput value => rerender s (setLineOpacity (inject_Z value / 100)%Q s)
    | OtherInput _ => s
    end
  else s.

(** ** The event loop *)

Inductive Event :=
| MouseDown (x y : Z)
| MouseMove (x y : Z)
| MouseUp
| ClickUndo
| ClickRedo
| Change (e : ChangeEvent)
| ImageLands (i : nat).

Definition step (s : AppState) (e : Event) : AppState :=
  match e with
  | MouseDown x y => startDrawing x y s
  | MouseMove x y => draw x y s
  | MouseUp => endDrawing s
  | ClickUndo => handleUndo s
  | ClickRedo => handleRedo s
  | Change c => handleChange c s
  | ImageLands i => imageLands i s
  end.

Definition run (es : list Event) (s : AppState) : AppState :=
  fold_left step es s.

(** One schedule among those the event loop allows: all pending image loads
    settle, in the order they were started. *)
Definition settle (s : AppState) : AppState :=
  run (map (fun _ => ImageLands 0) (loading s)) s.

(** One completed stroke: press at a point, drag through [moves], release. *)
Definition strokeEvents (st : Z * Z * list (Z * Z)) : list Event :=
  let '(x, y, moves) := st in
  MouseDown x y :: map (fun p => MouseMove (fst p) (snd p)) moves ++ [MouseUp].

(** The states the component can be in: the first effect has run, then any
    events. *)
Inductive reachable : AppState -> Prop :=
| reachable_mounted : reachable mounted
| reachable_step (s : AppState) (e : Event) : reachable s -> reachable (step s e).

(** A data URL that decodes to an image of the given size. *)
Definition decodesAt (w h : Z) (dataUrl : DataURL) : Prop :=
  exists img, decodeImage dataUrl = Some img /\ width img = w /\ height img = h.

(** A lossless codec: the data URL of a bitmap decodes to an image with the
    size and the pixels of the bitmap. *)
Definition losslessCodec : Prop :=
  forall b, exists img, decodeImage (toDataURL b) = Some img /\ samePixels img b.

(** Kinds of events. *)

(** The pointer events of the canvas: [onMouseDown], [onMouseMove],
    [onMouseUp]. *)
Definition pointerEvent (e : Event) : bool :=
  match e with
  | MouseDown _ _ | MouseMove _ _ | MouseUp => true
  | _ => false
  end.

(** What the canvas sees of a pointer that was not pressed on it. *)
Definition dragOrRelease (e : Event) : bool :=
  match e with
  | MouseMove _ _ | MouseUp => true
  | _ => false
  end.

(** The events whose handlers write pixels: [draw] calls [ctx.stroke()],
    [onload] calls [clearRect] and [drawImage]. *)
Definition paints (e : Event) : bool :=
  match e with
  | MouseMove _ _ | ImageLands _ => true
  | _ => false
  end.

(** The events whose handlers call [setUndoStack] or [setRedoStack]. *)
Definition editsHistory (e : Event) : bool :=
  match e with
  | MouseUp | ClickUndo | ClickRedo | Change _ => true
  | _ => false
  end.

(** The events whose handlers set [lineColor], [lineWidth] or
    [lineOpacity]. *)
Definition editsBrush (e : Event) : bool :=
  match e with
  | Change _ => true
  | _ => false
  end.

(** The brush as the context holds it. *)
Definition contextBrush (c : Ctx2D.t) : string * string * Q * string * Z :=
  (Ctx2D.lineCap c, Ctx2D.lineJoin c, Ctx2D.globalAlpha c,
   Ctx2D.strokeStyle c, Ctx2D.lineWidth c).

End App.


Arguments AppState : clear implicits.

(** ** A small browser to run the component on *)

Module Demo.

(** A data URL is either the PNG of a bitmap or a string that is no image;
    the codec is lossless. *)
Definition DataURL : Type := option Bitmap.
Definition toDataURL (b : Bitmap) : DataURL := Some b.
Definition decodeImage (d : DataURL) : option Bitmap := d.

Definition opaqueBlack : Pixel := mkPixel 0 0 0 255.

Definition onPath (x y : Z) (c : PathCmd) : bool :=
  match c with
  | MoveTo px py | LineTo px py => (px =? x) && (py =? y)
  | ClosePath => false
  end.

(** A rasteriser that paints the vertices of the path, one pixel each, under
    the context's [globalAlpha]. *)
Definition strokePath (c : Ctx2D.t) (b : Bitmap) (x y : Z) : Pixel :=
  if existsb (onPath x y) (Ctx2D.path c)
  then sourceOver (Ctx2D.globalAlpha c) opaqueBlack (pixelAt b x y)
  else pixelAt b x y.

(** An encoder that sees the pixels inside the bitmap only, as a real one
    does: what lies outside is not stored. *)
Definition crop (b : Bitmap) : Bitmap :=
  mkBitmap (width b) (height b)
    (fun x y => if inside b x y then pixelAt b x y else transparentBlack).
Definition croppedDataURL (b : Bitmap) : DataURL := Some (crop b).

Definition State : Type := AppState DataURL.
Definition mounted : State := mounted toDataURL.
Definition step : State -> Event -> State := step toDataURL decodeImage strokePath.
Definition run : list Event -> State -> State := run toDataURL decodeImage strokePath.
Definition settle : State -> State := settle toDataURL decodeImage strokePath.

(** Stroke A is completed; stroke B is painted, its button not yet released
    over the canvas. *)
Definition paintingB : State :=
  run (strokeEvents (1, 1, [(2, 2); (3, 3)]) ++ [MouseDown 5 5; MouseMove 6 6]) mounted.

(** Stroke A is completed. *)
Definition committedA : State :=
  run (strokeEvents (1, 1, [(2, 2); (3, 3)])) mounted.

(** Stroke A is completed and undone, the restore has landed. *)
Definition undoneA : State :=
  run (strokeEvents (1, 1, [(2, 2); (3, 3)]) ++ [ClickUndo; ImageLands 0]) mounted.

(** Three short strokes, completed one after the other. *)
Definition strokeP : State := run (strokeEvents (1, 1, [(2, 2)])) mounted.
Definition strokesPQ : State := run (strokeEvents (5, 5, [(6, 6)])) strokeP.
Definition strokesPQR : State := run (strokeEvents (8, 8, [(9, 9)])) strokesPQ.

(** The third stroke is undone; the restore of the second is still loading. *)
Definition undoneR : State := run [ClickUndo] strokesPQR.

End Demo.


(** ** Arrays *)

Lemma lastElement_snoc {A : Type} (l : list A) (x : A) :
  lastElement (l ++ [x]) = Some x.
Proof.
  induction l as [|a l IH]; [reflexivity|].
  cbn [app lastElement]. rewrite IH.
  destruct (l ++ [x]) eqn:E; [destruct l; discriminate | reflexivity].
Qed.

Lemma lastIndexed_snoc {A : Type} (l : list A) (x : A) :
  lastIndexed (l ++ [x]) = Some x.
Proof.
  unfold lastIndexed. rewrite length_app. cbn [length].
  replace (length l + 1 - 1)%nat with (length l) by lia.
  rewrite nth_error_app2 by lia. now rewrite Nat.sub_diag.
Qed.

Lemma pop_snoc {A : Type} (l : list A) (x : A) :
  pop (l ++ [x]) = (Some x, l).
Proof.
  unfold pop. now rewrite lastElement_snoc, removelast_last.
Qed.

(** An array with more than one element ends in two of them. *)
Lemma two_last {A : Type} (l : list A) :
  (1 < length l)%nat -> exists older top lastState, l = older ++ [top; lastState].
Proof.
  intros H.
  destruct (exists_last (l := l)) as [l1 [z ->]]; [now destruct l|].
  rewrite length_app in H. cbn in H.
  destruct (exists_last (l := l1)) as [l2 [y ->]]; [destruct l1; cbn in H; [lia | discriminate]|].
  exists l2, y, z. now rewrite <- app_assoc.
Qed.

Lemma two_last_inv {A : Type} (l older : list A) (x y top lastState : A) :
  l ++ [x; y] = older ++ [top; lastState] -> older = l /\ top = x /\ lastState = y.
Proof.
  intros E.
  change (l ++ [x; y]) with (l ++ [x] ++ [y]) in E.
  change (older ++ [top; lastState]) with (older ++ [top] ++ [lastState]) in E.
  rewrite !app_assoc in E.
  apply app_inj_tail in E. destruct E as (E & ->).
  apply app_inj_tail in E. destruct E as (-> & ->). now repeat split.
Qed.

Lemma Forall_removeAt {A : Type} (P : A -> Prop) (i : nat) (l : list A) :
  Forall P l -> Forall P (removeAt i l).
Proof.
  intros H. unfold removeAt. apply Forall_app. split.
  - rewrite <- (firstn_skipn i l) in H. now apply Forall_app in H.
  - rewrite <- (firstn_skipn (S i) l) in H. now apply Forall_app in H.
Qed.

(** ** Compositing at full opacity *)

Lemma scaleChannel_one (c : Z) : scaleChannel 1 c = c.
Proof.
  unfold scaleChannel, Qfloor, Qplus, Qmult, inject_Z. cbn [Qnum Qden].
  symmetry. apply Z.div_unique with (r := 1); lia.
Qed.

Lemma sourceOver_one_clear (p : Pixel) : sourceOver 1 p transparentBlack = p.
Proof.
  destruct p as [r g b a]. unfold sourceOver. cbn [red green blue alpha transparentBlack].
  rewrite !scaleChannel_one. cbn. now rewrite !Z.add_0_r.
Qed.

Section Properties.

Context {DataURL : Type}.
Variable toDataURL : Bitmap -> DataURL.
Variable decodeImage : DataURL -> option Bitmap.
Variable strokePath : Ctx2D.t -> Bitmap -> Z -> Z -> Pixel.

Local Abbreviation State := (AppState DataURL).
Local Abbreviation settle := (settle toDataURL decodeImage strokePath).
Local Abbreviation run := (run toDataURL decodeImage strokePath).
Local Abbreviation step := (step toDataURL decodeImage strokePath).
Local Abbreviation imageSettles := (imageSettles decodeImage).
Local Abbreviation imageLands := (imageLands decodeImage).
Local Abbreviation landed := (landed decodeImage).
Local Abbreviation saveState := (saveState toDataURL).
Local Abbreviation effect := (effect toDataURL).
Local Abbreviation endDrawing := (endDrawing toDataURL).
Local Abbreviation draw := (draw strokePath).
Local Abbreviation handleChange := (handleChange toDataURL).

(** ** What [onload] does to the canvas and to the context *)

Lemma onload_canvas (img : Bitmap) (s : State) :
  width img = width (canvas s) -> height img = height (canvas s) ->
  samePixels (canvas (onload img s)) img.
Proof.
  intros Hw Hh. unfold samePixels, onload. cbn.
  repeat split; try congruence.
  intros x y Hin. unfold inside in *. cbn in Hin.
  rewrite !Z.sub_0_r, Hw, Hh, Hin.
  apply sourceOver_one_clear.
Qed.

Lemma onload_rest (img : Bitmap) (s : State) :
  ctx (onload img s) = ctx s /\
  width (canvas (onload img s)) = width (canvas s) /\
  height (canvas (onload img s)) = height (canvas s) /\
  undoStack (onload img s) = undoStack s /\
  redoStack (onload img s) = redoStack s /\
  loading (onload img s) = loading s.
Proof.
  destruct s as [cv [cap join ga style w p] d lw lc lo us rs ld].
  repeat split.
Qed.

Lemma landed_rest (d : DataURL) (s : State) :
  ctx (landed d s) = ctx s /\
  width (canvas (landed d s)) = width (canvas s) /\
  height (canvas (landed d s)) = height (canvas s) /\
  undoStack (landed d s) = undoStack s /\
  redoStack (landed d s) = redoStack s /\
  loading (landed d s) = loading s.
Proof.
  unfold landed. destruct (decodeImage d); [apply onload_rest | repeat split].
Qed.

Lemma set_loading_landed (l : list DataURL) (d : DataURL) (s : State) :
  set_loading l (landed d s) = landed d (set_loading l s).
Proof.
  unfold landed. destruct (decodeImage d); reflexivity.
Qed.

Lemma settle_fold (l : list DataURL) (s : State) :
  loading s = l ->
  run (map (fun _ => ImageLands 0) l) s
  = fold_left (fun st d => landed d st) l (set_loading [] s).
Proof.
  revert s. induction l as [|d rest IH]; intros s Hl.
  - destruct s; cbn in *; subst; reflexivity.
  - cbn [map]. unfold run in *. cbn [fold_left step].
    unfold imageLands at 1. rewrite Hl. cbn [nth_error removeAt firstn skipn app].
    rewrite IH.
    + now rewrite set_loading_landed.
    + destruct (landed_rest d (set_loading rest s)) as (_ & _ & _ & _ & _ & ->).
      reflexivity.
Qed.

(** Settling a queue to which one more load was added: the older loads
    settle as before, then the new one lands. *)
Lemma settle_restoreState (d : DataURL) (s : State) :
  settle (restoreState d s) = landed d (settle s).
Proof.
  unfold settle.
  rewrite (settle_fold (loading s ++ [d])) by reflexivity.
  rewrite (settle_fold (loading s)) by reflexivity.
  now rewrite fold_left_app.
Qed.

Lemma settle_rest (s : State) :
  ctx (settle s) = ctx s /\
  width (canvas (settle s)) = width (canvas s) /\
  height (canvas (settle s)) = height (canvas s) /\
  undoStack (settle s) = undoStack s /\
  redoStack (settle s) = redoStack s /\
  loading (settle s) = [].
Proof.
  unfold settle. rewrite (settle_fold (loading s)) by reflexivity.
  assert (G : forall l (t : State),
             let r := fold_left (fun st d => landed d st) l t in
             ctx r = ctx t /\ width (canvas r) = width (canvas t) /\
             height (canvas r) = height (canvas t) /\
             undoStack r = undoStack t /\ redoStack r = redoStack t /\
             loading r = loading t).
  { induction l as [|d l IH]; intros t; cbn; [repeat split|].
    destruct (IH (landed d t)) as (A & B & C & D & E & F).
    destruct (landed_rest d t) as (A' & B' & C' & D' & E' & F').
    repeat split; congruence. }
  destruct (G (loading s) (set_loading [] s)) as (A & B & C & D & E & F).
  repeat split; assumption.
Qed.

(** ** Undo and redo *)

Lemma handleUndo_eq (s : State) (older : list DataURL) (top lastState : DataURL) :
  undoStack s = older ++ [top; lastState] ->
  handleUndo s
  = restoreState top
      (setUndoStack (older ++ [top]) (setRedoStack (lastState :: redoStack s) s)).
Proof.
  intros H. unfold handleUndo.
  replace (older ++ [top; lastState]) with ((older ++ [top]) ++ [lastState]) in H
    by now rewrite <- app_assoc.
  rewrite H, pop_snoc, lastIndexed_snoc.
  rewrite !length_app. cbn [length].
  destruct (1 <? length older + 1 + 1)%nat eqn:E; [reflexivity|].
  apply Nat.ltb_ge in E. lia.
Qed.

Lemma handleUndo_noop (s : State) :
  (length (undoStack s) <= 1)%nat -> handleUndo s = s.
Proof.
  intros H. unfold handleUndo.
  destruct (1 <? length (undoStack s))%nat eqn:E; [|reflexivity].
  apply Nat.ltb_lt in E. lia.
Qed.

Lemma handleRedo_eq (s : State) (nextState : DataURL) (rest : list DataURL) :
  redoStack s = nextState :: rest ->
  handleRedo s
  = restoreState nextState
      (setUndoStack (undoStack s ++ [nextState]) (setRedoStack rest s)).
Proof.
  intros H. unfold handleRedo. rewrite H. reflexivity.
Qed.

Lemma handleRedo_noop (s : State) : redoStack s = [] -> handleRedo s = s.
Proof.
  intros H. unfold handleRedo. now rewrite H.
Qed.

(** A restore, once every pending load has settled, shows the restored
    image on the canvas. *)
Lemma restore_lands (s : State) (d : DataURL) (img : Bitmap) :
  decodeImage d = Some img ->
  width img = width (canvas s) -> height img = height (canvas s) ->
  samePixels (canvas (settle (restoreState d s))) img.
Proof.
  intros Hd Hw Hh. rewrite settle_restoreState.
  unfold landed. rewrite Hd.
  destruct (settle_rest s) as (_ & W & H & _).
  apply onload_canvas; congruence.
Qed.

(** Whenever the load of a snapshot of the canvas's size settles, whatever
    else is pending, the canvas shows that snapshot. *)
Lemma imageLands_shows (t : State) (i : nat) (d : DataURL) (img : Bitmap) :
  nth_error (loading t) i = Some d ->
  decodeImage d = Some img ->
  width img = width (canvas t) -> height img = height (canvas t) ->
  samePixels (canvas (imageLands i t)) img.
Proof.
  intros Hn Hd Hw Hh. unfold imageLands, landed. rewrite Hn, Hd.
  now apply onload_canvas.
Qed.

(** C5: with more than one entry in [undoStack], [handleUndo] removes the
    last entry, puts it at the front of [redoStack] and starts the restore
    of the entry that is now last: its load joins the pending ones, and in
    whatever state and order that load settles, the canvas then shows that
    entry; with at most one entry [handleUndo] changes nothing. *)
Theorem handleUndo_pops_and_restores (s : State) :
  ((1 < length (undoStack s))%nat ->
   exists older top lastState,
     undoStack s = older ++ [top; lastState] /\
     undoStack (handleUndo s) = older ++ [top] /\
     redoStack (handleUndo s) = lastState :: redoStack s /\
     loading (handleUndo s) = loading s ++ [top] /\
     forall img,
       decodeImage top = Some img ->
       width img = width (canvas s) -> height img = height (canvas s) ->
       forall (t : State) (i : nat),
         nth_error (loading t) i = Some top ->
         width (canvas t) = width (canvas s) ->
         height (canvas t) = height (canvas s) ->
         samePixels (canvas (imageLands i t)) img) /\
  ((length (undoStack s) <= 1)%nat -> handleUndo s = s).
Proof.
  split; [|apply handleUndo_noop].
  intros H. destruct (two_last _ H) as (older & top & lastState & E).
  exists older, top, lastState. rewrite (handleUndo_eq s older top lastState E).
  split; [assumption|]. split; [reflexivity|]. split; [reflexivity|].
  split; [reflexivity|].
  intros img Hd Hw Hh t i Hn Wt Ht. apply imageLands_shows with (d := top); congruence.
Qed.

(** C6: with exactly one entry in [undoStack], [handleUndo] leaves the whole
    state, and so [undoStack], [redoStack] and the canvas, as it was. *)
Theorem handleUndo_at_bottom (s : State) :
  length (undoStack s) = 1%nat ->
  handleUndo s = s /\
  undoStack (handleUndo s) = undoStack s /\
  redoStack (handleUndo s) = redoStack s /\
  canvas (handleUndo s) = canvas s /\
  canvas (settle (handleUndo s)) = canvas (settle s).
Proof.
  intros H. rewrite handleUndo_noop by lia. repeat split.
Qed.


(** C10: [handleUndo] and [handleRedo] keep the number of stored snapshots:
    the lengths of [undoStack] and [redoStack] add up to the same before
    and after. *)
Theorem undo_redo_keep_snapshot_count (s : State) :
  (length (undoStack (handleUndo s)) + length (redoStack (handleUndo s))
   = length (undoStack s) + length (redoStack s))%nat /\
  (length (undoStack (handleRedo s)) + length (redoStack (handleRedo s))
   = length (undoStack s) + length (redoStack s))%nat.
Proof.
  split.
  - destruct (Nat.ltb_spec 1 (length (undoStack s))) as [H|H].
    + destruct (two_last _ H) as (older & top & lastState & E).
      rewrite (handleUndo_eq s older top lastState E), E. cbn.
      rewrite !length_app. cbn. lia.
    + now rewrite handleUndo_noop.
  - destruct (redoStack s) as [|nextState rest] eqn:E.
    + rewrite handleRedo_noop by assumption. now rewrite E.
    + rewrite (handleRedo_eq s nextState rest E). cbn.
      rewrite length_app. cbn. lia.
Qed.

(** ** Restoring a snapshot *)

Lemma samePixels_trans (a b c : Bitmap) :
  samePixels a b -> samePixels b c -> samePixels a c.
Proof.
  intros (W1 & H1 & P1) (W2 & H2 & P2). unfold samePixels.
  split; [congruence|]. split; [congruence|].
  intros x y Hin. rewrite P1 by assumption. apply P2.
  unfold inside in *. now rewrite <- W1, <- H1.
Qed.

(** Compositing the same copy under the brush opacity of the initial state
    instead would fade it. *)
Example sourceOver_at_brush_opacity :
  sourceOver (1 # 10) (mkPixel 0 0 0 26) transparentBlack = mkPixel 0 0 0 3.
Proof. reflexivity. Qed.

(** C8: whatever the context's [globalAlpha] (the current brush opacity),
    the restore of a snapshot of the canvas's size leaves exactly the
    snapshot's pixels on the canvas, and [globalAlpha] as it was; restoring
    again, any number of times, gives the same pixels and the same
    [globalAlpha]. *)
Theorem restore_copies_at_full_opacity
    (s : State) (snapshot : DataURL) (img : Bitmap) (opacity : Q) :
  Ctx2D.globalAlpha (ctx s) = opacity ->
  decodeImage snapshot = Some img ->
  width img = width (canvas s) -> height img = height (canvas s) ->
  forall n : nat,
    let s' := Nat.iter (S n) (fun t => settle (restoreState snapshot t)) s in
    samePixels (canvas s') img /\ Ctx2D.globalAlpha (ctx s') = opacity.
Proof.
  intros Ha Hd Hw Hh n.
  assert (G : forall k,
             let t := Nat.iter k (fun t => settle (restoreState snapshot t)) s in
             ctx t = ctx s /\ width (canvas t) = width (canvas s) /\
             height (canvas t) = height (canvas s)).
  { induction k as [|k IH]; [repeat split|].
    cbv zeta in IH. destruct IH as (A & B & C).
    change (Nat.iter (S k) (fun t => settle (restoreState snapshot t)) s)
      with (settle (restoreState snapshot
                      (Nat.iter k (fun t => settle (restoreState snapshot t)) s))).
    set (t := Nat.iter k _ s) in *.
    destruct (settle_rest (restoreState snapshot t)) as (A' & B' & C' & _).
    cbn [ctx canvas restoreState set_loading] in A', B', C'.
    repeat split; congruence. }
  cbv zeta. destruct (G (S n)) as (A & _ & _).
  split; [|now rewrite A].
  destruct (G n) as (_ & B & C).
  change (Nat.iter (S n) (fun t => settle (restoreState snapshot t)) s)
    with (settle (restoreState snapshot
                    (Nat.iter n (fun t => settle (restoreState snapshot t)) s))).
  apply restore_lands; congruence.
Qed.

(** C9: a snapshot that does not decode changes nothing when its load
    settles: no pixel of the canvas, and no other part of the state. *)
Theorem undecodable_snapshot_leaves_canvas (s : State) (snapshot : DataURL) :
  decodeImage snapshot = None ->
  canvas (restoreState snapshot s) = canvas s /\
  settle (restoreState snapshot s) = settle s /\
  (loading s = [] -> imageSettles (restoreState snapshot s) = s).
Proof.
  intros Hd. split; [reflexivity|]. split.
  - rewrite settle_restoreState. unfold landed. now rewrite Hd.
  - intros Hl. unfold imageSettles, imageLands, landed, restoreState.
    destruct s; cbn in *; subst. cbn. now rewrite Hd.
Qed.

(** With a lossless codec the snapshot [saveState] appends decodes to what
    the canvas shows: the premise of the round trip holds after the first
    effect and after every completed stroke. *)
Lemma saveState_snapshot_matches (s : State) :
  losslessCodec toDataURL decodeImage ->
  exists d img, lastElement (undoStack (saveState s)) = Some d /\
                decodeImage d = Some img /\
                samePixels img (canvas (saveState s)).
Proof.
  intros lossless. destruct (lossless (canvas s)) as (img & D & P).
  exists (toDataURL (canvas s)), img.
  unfold saveState. cbn. now rewrite lastElement_snoc.
Qed.

(** When the data URL of a bitmap decodes to an image of the bitmap's size,
    every snapshot the component ever holds, in [undoStack], in [redoStack]
    or on its way to the canvas, decodes to an image of the canvas's size,
    1280 x 720, so that a restore overwrites every pixel of the canvas. *)
Lemma reachable_snapshots_fit (s : State) :
  (forall b, decodesAt decodeImage (width b) (height b) (toDataURL b)) ->
  reachable toDataURL decodeImage strokePath s ->
  width (canvas s) = 1280 /\ height (canvas s) = 720 /\
  Forall (decodesAt decodeImage 1280 720) (undoStack s) /\
  Forall (decodesAt decodeImage 1280 720) (redoStack s) /\
  Forall (decodesAt decodeImage 1280 720) (loading s).
Proof.
  intros sized R. induction R as [|s e R (W & H & U & D & L)].
  - repeat split; try constructor; try constructor.
    apply (sized (blankCanvas 1280 720)).
  - assert (K : decodesAt decodeImage 1280 720 (toDataURL (canvas s)))
      by (rewrite <- W, <- H; apply sized).
    assert (Eff : forall t : State,
               canvas t = canvas s -> undoStack t = undoStack s ->
               redoStack t = redoStack s -> loading t = loading s ->
               width (canvas (effect t)) = 1280 /\ height (canvas (effect t)) = 720 /\
               Forall (decodesAt decodeImage 1280 720) (undoStack (effect t)) /\
               Forall (decodesAt decodeImage 1280 720) (redoStack (effect t)) /\
               Forall (decodesAt decodeImage 1280 720) (loading (effect t))).
    { intros t Ec Eu Er El. cbn. rewrite Ec, Eu, Er, El.
      repeat split; try assumption. apply Forall_app. split; [assumption|].
      now constructor. }
    destruct e as [x y|x y| | | |c|i]; cbn [step].
    + repeat split; assumption.
    + unfold draw. destruct (isDrawing s); cbn; repeat split; assumption.
    + unfold endDrawing. destruct (isDrawing s); cbn; repeat split; try assumption;
        try constructor.
      apply Forall_app. split; [assumption | now constructor].
    + destruct (Nat.ltb_spec 1 (length (undoStack s))) as [G|G].
      * destruct (two_last _ G) as (older & top & lastState & E).
        rewrite (handleUndo_eq s older top lastState E). cbn.
        rewrite E in U. apply Forall_app in U. destruct U as (U1 & U2).
        inversion U2 as [|? ? T U3]; subst. inversion U3 as [|? ? T' _]; subst.
        repeat split; try assumption.
        -- apply Forall_app. split; [assumption | now constructor].
        -- now constructor.
        -- apply Forall_app. split; [assumption | now constructor].
      * rewrite handleUndo_noop by lia. repeat split; assumption.
    + destruct (redoStack s) as [|nextState rest] eqn:E.
      * rewrite handleRedo_noop by assumption. rewrite E. repeat split; assumption.
      * rewrite (handleRedo_eq s nextState rest E). cbn.
        inversion D as [|? ? T D']; subst.
        repeat split; try assumption;
          (apply Forall_app; split; [assumption | now constructor]).
    + unfold handleChange. destruct (String.eqb (validateForm c) EmptyString);
        [|repeat split; assumption].
      destruct c as [value|value|value|name]; unfold rerender;
        try (repeat split; assumption).
      * destruct (depsChanged s (setLineColor value s));
          [now apply Eff | cbn; repeat split; assumption].
      * destruct (depsChanged s (setLineWidth value s));
          [now apply Eff | cbn; repeat split; assumption].
      * destruct (depsChanged s (setLineOpacity (inject_Z value / 100) s));
          [now apply Eff | cbn; repeat split; assumption].
    + unfold imageLands. destruct (nth_error (loading s) i) as [d|] eqn:E.
      * destruct (landed_rest d (set_loading (removeAt i (loading s)) s))
          as (_ & W' & H' & U' & D' & L').
        rewrite W', H', U', D', L'. cbn.
        repeat split; try assumption. now apply Forall_removeAt.
      * repeat split; assumption.
Qed.

Lemma lossless_sized :
  losslessCodec toDataURL decodeImage ->
  forall b, decodesAt decodeImage (width b) (height b) (toDataURL b).
Proof.
  intros lossless b. destruct (lossless b) as (img & D & W & H & _).
  now exists img.
Qed.

Lemma reachable_run (es : list Event) (s : State) :
  reachable toDataURL decodeImage strokePath s ->
  reachable toDataURL decodeImage strokePath (run es s).
Proof.
  revert s. induction es as [|e es IH]; intros s R; [exact R|].
  apply IH. now constructor.
Qed.

(** C1, as the code has it: when the last entry of [undoStack] decodes to
    what the canvas shows, [handleUndo] followed by [handleRedo] gives back
    [undoStack] and [redoStack], and, once the two restores have settled in
    the order they were started, a canvas with the same pixels as before. *)
Theorem undo_redo_round_trip (s : State) (lastState : DataURL) (img : Bitmap) :
  (1 < length (undoStack s))%nat ->
  lastElement (undoStack s) = Some lastState ->
  decodeImage lastState = Some img ->
  samePixels img (canvas s) ->
  let s' := handleRedo (handleUndo s) in
  undoStack s' = undoStack s /\
  redoStack s' = redoStack s /\
  samePixels (canvas (settle s')) (canvas s).
Proof.
  intros Hlen Hlast Hd Hsame.
  destruct (two_last _ Hlen) as (older & top & lastState' & E).
  assert (lastState' = lastState) as ->.
  { rewrite E in Hlast.
    replace (older ++ [top; lastState']) with ((older ++ [top]) ++ [lastState']) in Hlast
      by now rewrite <- app_assoc.
    rewrite lastElement_snoc in Hlast. congruence. }
  cbv zeta. rewrite (handleUndo_eq s older top lastState E).
  set (u := restoreState top _).
  rewrite (handleRedo_eq u lastState (redoStack s)) by reflexivity.
  split; [cbn; now rewrite E, <- app_assoc|]. split; [reflexivity|].
  apply samePixels_trans with (b := img); [|assumption].
  destruct Hsame as (W & H & _).
  apply restore_lands; [assumption| |]; cbn; congruence.
Qed.

(** ** Strokes *)

Lemma run_app (a b : list Event) (s : State) : run (a ++ b) s = run b (run a s).
Proof. apply fold_left_app. Qed.

(** Dragging keeps the stroke open and does not touch the history. *)
Lemma moves_keep_history (moves : list (Z * Z)) (s : State) :
  isDrawing s = true ->
  let s' := run (map (fun p => MouseMove (fst p) (snd p)) moves) s in
  isDrawing s' = true /\ undoStack s' = undoStack s /\ redoStack s' = redoStack s.
Proof.
  revert s. induction moves as [|p moves IH]; intros s Hd; [repeat split; assumption|].
  cbn [map]. cbv zeta. unfold run. cbn [fold_left step].
  assert (E : draw (fst p) (snd p) s
              = set_canvas
                  (mkBitmap (width (canvas s)) (height (canvas s))
                     (strokePath (Ctx2D.lineTo (fst p) (snd p) (ctx s)) (canvas s)))
                  (set_ctx (Ctx2D.lineTo (fst p) (snd p) (ctx s)) s)).
  { unfold draw. now rewrite Hd. }
  rewrite E. set (t := set_canvas _ _).
  destruct (IH t Hd) as (A & B & C).
  split; [exact A | split; [exact B | exact C]].
Qed.

(** A completed stroke adds one snapshot and empties [redoStack]. *)
Lemma stroke_commits (st : Z * Z * list (Z * Z)) (s : State) :
  let s' := run (strokeEvents st) s in
  length (undoStack s') = S (length (undoStack s)) /\ redoStack s' = [].
Proof.
  destruct st as [[x y] moves]. cbv zeta. unfold strokeEvents.
  change (MouseDown x y :: map (fun p => MouseMove (fst p) (snd p)) moves ++ [MouseUp])
    with ([MouseDown x y] ++ map (fun p => MouseMove (fst p) (snd p)) moves ++ [MouseUp]).
  rewrite !run_app.
  change (run [MouseDown x y] s) with (startDrawing x y s).
  destruct (moves_keep_history moves (startDrawing x y s) eq_refl) as (D & U & R).
  set (t := run (map _ moves) (startDrawing x y s)) in *.
  change (run [MouseUp] t) with (endDrawing t).
  unfold endDrawing. rewrite D. cbn.
  rewrite length_app, U. cbn. split; [lia | reflexivity].
Qed.

Lemma strokes_commit (strokes : list (Z * Z * list (Z * Z))) (s : State) :
  let s' := run (concat (map strokeEvents strokes)) s in
  length (undoStack s') = (length strokes + length (undoStack s))%nat /\
  (redoStack s = [] -> redoStack s' = []).
Proof.
  revert s. induction strokes as [|st strokes IH]; intros s; [split; auto|].
  cbn [map concat]. cbv zeta. rewrite run_app.
  destruct (stroke_commits st s) as (L & R).
  destruct (IH (run (strokeEvents st) s)) as (L' & R').
  split; [rewrite L', L; cbn; lia | auto].
Qed.

(** C2: after the first effect and any number of completed strokes,
    [undoStack] holds one snapshot more than there were strokes and
    [redoStack] is empty. *)
Theorem completed_strokes_history (strokes : list (Z * Z * list (Z * Z))) :
  let s := run (concat (map strokeEvents strokes)) (mounted toDataURL) in
  length (undoStack s) = (length strokes + 1)%nat /\ redoStack s = [].
Proof.
  destruct (strokes_commit strokes (mounted toDataURL)) as (L & R).
  split; [exact L | apply R; reflexivity].
Qed.

(** C4: [endDrawing] on a stroke in progress empties [redoStack], whatever
    it held, and appends the snapshot of the canvas to [undoStack]; a redo
    right after finds nothing to bring back. The same holds for a whole
    stroke, press to release, from any state. *)
Theorem endDrawing_clears_redoStack (s : State) :
  isDrawing s = true ->
  redoStack (endDrawing s) = [] /\
  undoStack (endDrawing s) = undoStack s ++ [toDataURL (canvas s)] /\
  handleRedo (endDrawing s) = endDrawing s /\
  forall st, redoStack (run (strokeEvents st) s) = [].
Proof.
  intros Hd. unfold endDrawing. rewrite Hd.
  split; [reflexivity|]. split; [reflexivity|]. split; [reflexivity|].
  intros st. apply stroke_commits.
Qed.

(** ** The effect *)

Lemma depsChanged_same (s : State) : depsChanged s s = false.
Proof.
  unfold depsChanged.
  rewrite String.eqb_refl, Z.eqb_refl.
  now rewrite (proj2 (Qeq_bool_iff _ _) (Qeq_refl _)).
Qed.

Lemma effect_history (s : State) :
  undoStack (effect s) = undoStack s ++ [toDataURL (canvas s)] /\
  redoStack (effect s) = redoStack s.
Proof. split; reflexivity. Qed.

(** C3, as the code has it: the first effect leaves the snapshot of the
    blank canvas as the only entry of [undoStack], with [redoStack] empty; a
    change of the brush never resets the history: every entry of
    [undoStack] stays where it was, and [redoStack] is left as it was. *)
Theorem effect_never_resets_history :
  (undoStack (mounted toDataURL) = [toDataURL (blankCanvas 1280 720)] /\
   redoStack (mounted toDataURL) = []) /\
  (forall (s : State) (e : ChangeEvent),
     (exists added, undoStack (handleChange e s) = undoStack s ++ added) /\
     redoStack (handleChange e s) = redoStack s).
Proof.
  split; [split; reflexivity|].
  intros s e. unfold handleChange.
  assert (Same : (exists added, undoStack s = undoStack s ++ added)
                 /\ redoStack s = redoStack s)
    by (split; [exists []; now rewrite app_nil_r | reflexivity]).
  assert (Eff : forall t : State,
             undoStack t = undoStack s -> redoStack t = redoStack s ->
             (exists added, undoStack (effect t) = undoStack s ++ added)
             /\ redoStack (effect t) = redoStack s).
  { intros t Eu Er. destruct (effect_history t) as (U & R).
    rewrite U, R, Eu, Er. split; [now eexists | reflexivity]. }
  destruct (String.eqb (validateForm e) EmptyString); [|exact Same].
  destruct e as [value|value|value|name]; unfold rerender; [| | |exact Same].
  - destruct (depsChanged s (setLineColor value s)); [now apply Eff | exact Same].
  - destruct (depsChanged s (setLineWidth value s)); [now apply Eff | exact Same].
  - destruct (depsChanged s (setLineOpacity (inject_Z value / 100) s));
      [now apply Eff | exact Same].
Qed.

End Properties.

(** * More of the component *)

(** Two splits of one array at the same length are the same split. *)
Lemma app_eq_same_length {A : Type} (a b a' b' : list A) :
  a ++ b = a' ++ b' -> length a = length a' -> a = a' /\ b = b'.
Proof.
  revert a'. induction a as [|x a IH]; intros [|x' a'] E L; try discriminate.
  - now split.
  - cbn in E. injection E as -> E. injection L as L.
    destruct (IH a' E L) as [-> ->]. now split.
Qed.

Lemma lastElement_split {A : Type} (l : list A) (x : A) :
  lastElement l = Some x -> exists l', l = l' ++ [x].
Proof.
  intros H. destruct (exists_last (l := l)) as [l' [y ->]].
  - intros ->. discriminate.
  - rewrite lastElement_snoc in H. injection H as ->. now exists l'.
Qed.

(** Splits a goal into its conjuncts and closes the ones at hand. *)
Ltac conjuncts :=
  repeat match goal with |- _ /\ _ => split end;
  try assumption; try reflexivity; try lia.

Section Coverage.

Context {DataURL : Type}.
Variable toDataURL : Bitmap -> DataURL.
Variable decodeImage : DataURL -> option Bitmap.
Variable strokePath : Ctx2D.t -> Bitmap -> Z -> Z -> Pixel.

Local Abbreviation State := (AppState DataURL).
Local Abbreviation settle := (settle toDataURL decodeImage strokePath).
Local Abbreviation run := (run toDataURL decodeImage strokePath).
Local Abbreviation step := (step toDataURL decodeImage strokePath).
Local Abbreviation reachable := (reachable toDataURL decodeImage strokePath).
Local Abbreviation imageSettles := (imageSettles decodeImage).
Local Abbreviation imageLands := (imageLands decodeImage).
Local Abbreviation landed := (landed decodeImage).
Local Abbreviation saveState := (saveState toDataURL).
Local Abbreviation effect := (effect toDataURL).
Local Abbreviation mounted := (mounted toDataURL).
Local Abbreviation endDrawing := (endDrawing toDataURL).
Local Abbreviation draw := (draw strokePath).
Local Abbreviation handleChange := (handleChange toDataURL).

(** ** The timeline of snapshots *)

Lemma handleUndo_timeline (s : State) :
  undoStack (handleUndo s) ++ redoStack (handleUndo s) = undoStack s ++ redoStack s.
Proof.
  destruct (Nat.ltb_spec 1 (length (undoStack s))) as [H|H].
  - destruct (two_last _ H) as (older & top & lastState & E).
    rewrite (handleUndo_eq s older top lastState E), E. cbn.
    now rewrite <- !app_assoc.
  - now rewrite handleUndo_noop.
Qed.

Lemma handleRedo_timeline (s : State) :
  undoStack (handleRedo s) ++ redoStack (handleRedo s) = undoStack s ++ redoStack s.
Proof.
  destruct (redoStack s) as [|nextState rest] eqn:E.
  - rewrite handleRedo_noop by assumption. now rewrite E.
  - rewrite (handleRedo_eq s nextState rest E). cbn. now rewrite <- app_assoc.
Qed.

(** X2: undo and redo keep the snapshots in their order: [undoStack]
    followed by [redoStack] is the same array before and after, also after
    any number of undos and redos in any order. *)
Theorem undo_redo_keep_timeline (clicks : list bool) (s : State) :
  let s' := run (map (fun undo : bool => if undo then ClickUndo else ClickRedo) clicks) s in
  undoStack s' ++ redoStack s' = undoStack s ++ redoStack s.
Proof.
  revert s. induction clicks as [|c clicks IH]; intros s; [reflexivity|].
  cbn [map]. cbv zeta in *. unfold run in *. cbn [fold_left]. rewrite IH.
  destruct c; [apply handleUndo_timeline | apply handleRedo_timeline].
Qed.

Lemma handleUndo_length (s : State) :
  length (undoStack (handleUndo s))
  = if (1 <? length (undoStack s))%nat then (length (undoStack s) - 1)%nat
    else length (undoStack s).
Proof.
  destruct (Nat.ltb_spec 1 (length (undoStack s))) as [H|H].
  - destruct (two_last _ H) as (older & top & lastState & E).
    rewrite (handleUndo_eq s older top lastState E), E. cbn.
    rewrite !length_app. cbn. lia.
  - now rewrite handleUndo_noop.
Qed.

Lemma handleRedo_length (s : State) :
  length (redoStack (handleRedo s)) = (length (redoStack s) - 1)%nat.
Proof.
  destruct (redoStack s) as [|nextState rest] eqn:E.
  - rewrite handleRedo_noop by assumption. now rewrite E.
  - rewrite (handleRedo_eq s nextState rest E). cbn. lia.
Qed.

Lemma undos_timeline (n : nat) (s : State) :
  undoStack (Nat.iter n handleUndo s) ++ redoStack (Nat.iter n handleUndo s)
  = undoStack s ++ redoStack s.
Proof.
  induction n as [|n IH]; [reflexivity|]. rewrite Nat.iter_succ.
  now rewrite handleUndo_timeline.
Qed.

Lemma redos_timeline (n : nat) (s : State) :
  undoStack (Nat.iter n handleRedo s) ++ redoStack (Nat.iter n handleRedo s)
  = undoStack s ++ redoStack s.
Proof.
  induction n as [|n IH]; [reflexivity|]. rewrite Nat.iter_succ.
  now rewrite handleRedo_timeline.
Qed.

Lemma undos_length (n : nat) (s : State) :
  (1 <= length (undoStack s))%nat ->
  length (undoStack (Nat.iter n handleUndo s))
  = Nat.max 1 (length (undoStack s) - n).
Proof.
  intros H. induction n as [|n IH]; [simpl Nat.iter; lia|]. rewrite Nat.iter_succ.
  rewrite handleUndo_length, IH.
  destruct (Nat.ltb_spec 1 (Nat.max 1 (length (undoStack s) - n))); lia.
Qed.

Lemma redos_length (n : nat) (s : State) :
  length (redoStack (Nat.iter n handleRedo s)) = (length (redoStack s) - n)%nat.
Proof.
  induction n as [|n IH]; [simpl Nat.iter; lia|]. rewrite Nat.iter_succ.
  rewrite handleRedo_length, IH. lia.
Qed.

(** X3: [k] undos followed by [k] redos give back [undoStack] and
    [redoStack], as long as [undoStack] has more than [k] entries. *)
Theorem undos_then_redos_round_trip (k : nat) (s : State) :
  (k < length (undoStack s))%nat ->
  let s' := Nat.iter k handleRedo (Nat.iter k handleUndo s) in
  undoStack s' = undoStack s /\ redoStack s' = redoStack s.
Proof.
  intros H. cbv zeta.
  set (t := Nat.iter k handleUndo s).
  assert (T : undoStack t ++ redoStack t = undoStack s ++ redoStack s)
    by apply undos_timeline.
  assert (Lt : length (undoStack t) = (length (undoStack s) - k)%nat)
    by (unfold t; rewrite undos_length by lia; lia).
  assert (Lr : length (redoStack t) = (length (redoStack s) + k)%nat).
  { apply (f_equal (@length _)) in T. rewrite !length_app in T. lia. }
  set (u := Nat.iter k handleRedo t).
  assert (U : undoStack u ++ redoStack u = undoStack s ++ redoStack s)
    by (unfold u; now rewrite redos_timeline).
  assert (Lu : length (redoStack u) = length (redoStack s))
    by (unfold u; rewrite redos_length; lia).
  apply app_eq_same_length; [exact U|].
  apply (f_equal (@length _)) in U. rewrite !length_app in U. lia.
Qed.

Lemma undos_reach_bottom (n : nat) (s : State) (first : DataURL) (rest : list DataURL) :
  undoStack s = first :: rest -> (length rest <= n)%nat ->
  undoStack (Nat.iter n handleUndo s) = [first] /\
  redoStack (Nat.iter n handleUndo s) = rest ++ redoStack s.
Proof.
  intros E L.
  pose proof (undos_timeline n s) as T.
  pose proof (undos_length n s) as Len.
  rewrite E in T, Len. cbn [length] in Len.
  specialize (Len ltac:(lia)).
  destruct (undoStack (Nat.iter n handleUndo s)) as [|x [|y l]];
    cbn [length] in Len; [lia| |lia].
  cbn in T. injection T as -> T. now split.
Qed.

(** X4: enough undos leave the oldest snapshot alone in [undoStack], with
    all the others in [redoStack] in their order; enough redos bring every
    snapshot of [redoStack] back to the end of [undoStack]. *)
Theorem undo_all_and_redo_all (n : nat) (s : State) :
  (forall first rest,
     undoStack s = first :: rest -> (length rest <= n)%nat ->
     undoStack (Nat.iter n handleUndo s) = [first] /\
     redoStack (Nat.iter n handleUndo s) = rest ++ redoStack s) /\
  ((length (redoStack s) <= n)%nat ->
   undoStack (Nat.iter n handleRedo s) = undoStack s ++ redoStack s /\
   redoStack (Nat.iter n handleRedo s) = []).
Proof.
  split; [intros first rest; apply undos_reach_bottom|].
  intros L.
  pose proof (redos_timeline n s) as T.
  pose proof (redos_length n s) as Len.
  destruct (redoStack (Nat.iter n handleRedo s)) as [|x l].
  - rewrite app_nil_r in T. now split.
  - cbn [length] in Len. lia.
Qed.

(** ** What each event can change *)

Lemma handleUndo_frame (s : State) :
  canvas (handleUndo s) = canvas s /\ ctx (handleUndo s) = ctx s /\
  isDrawing (handleUndo s) = isDrawing s /\
  (lineWidth (handleUndo s), lineColor (handleUndo s), lineOpacity (handleUndo s))
  = (lineWidth s, lineColor s, lineOpacity s).
Proof.
  destruct (Nat.ltb_spec 1 (length (undoStack s))) as [H|H].
  - destruct (two_last _ H) as (older & top & lastState & E).
    rewrite (handleUndo_eq s older top lastState E). repeat split.
  - rewrite handleUndo_noop by assumption. repeat split.
Qed.

Lemma handleRedo_frame (s : State) :
  canvas (handleRedo s) = canvas s /\ ctx (handleRedo s) = ctx s /\
  isDrawing (handleRedo s) = isDrawing s /\
  (lineWidth (handleRedo s), lineColor (handleRedo s), lineOpacity (handleRedo s))
  = (lineWidth s, lineColor s, lineOpacity s).
Proof.
  destruct (redoStack s) as [|nextState rest] eqn:E.
  - rewrite handleRedo_noop by assumption. repeat split.
  - rewrite (handleRedo_eq s nextState rest E). repeat split.
Qed.

Lemma handleChange_frame (e : ChangeEvent) (s : State) :
  canvas (handleChange e s) = canvas s /\
  isDrawing (handleChange e s) = isDrawing s /\
  Ctx2D.path (ctx (handleChange e s)) = Ctx2D.path (ctx s) /\
  redoStack (handleChange e s) = redoStack s /\
  loading (handleChange e s) = loading s.
Proof.
  unfold handleChange. destruct (String.eqb (validateForm e) EmptyString);
    [|repeat split].
  destruct e as [value|value|value|name]; unfold rerender; [| | |repeat split].
  - destruct (depsChanged s (setLineColor value s)); repeat split.
  - destruct (depsChanged s (setLineWidth value s)); repeat split.
  - destruct (depsChanged s (setLineOpacity (inject_Z value / 100) s)); repeat split.
Qed.

Lemma step_leaves_alone (s : State) (e : Event) :
  (width (canvas (step s e)) = width (canvas s) /\
   height (canvas (step s e)) = height (canvas s)) /\
  (paints e = false -> canvas (step s e) = canvas s) /\
  (editsHistory e = false ->
   undoStack (step s e) = undoStack s /\ redoStack (step s e) = redoStack s) /\
  (editsBrush e = false ->
   (lineWidth (step s e), lineColor (step s e), lineOpacity (step s e))
   = (lineWidth s, lineColor s, lineOpacity s) /\
   contextBrush (ctx (step s e)) = contextBrush (ctx s)).
Proof.
  destruct e as [x y|x y| | | |c|i]; cbn [step paints editsHistory editsBrush].
  - repeat split.
  - unfold draw. destruct (isDrawing s); repeat split; discriminate.
  - unfold endDrawing. destruct (isDrawing s); repeat split; discriminate.
  - destruct (handleUndo_frame s) as (C & X & _ & B). rewrite C, X.
    repeat split; try discriminate. exact B.
  - destruct (handleRedo_frame s) as (C & X & _ & B). rewrite C, X.
    repeat split; try discriminate. exact B.
  - destruct (handleChange_frame c s) as (C & _). rewrite C.
    repeat split; discriminate.
  - unfold imageLands.
    destruct (nth_error (loading s) i) as [d|]; [|repeat split; discriminate].
    set (t := set_loading (removeAt i (loading s)) s).
    destruct (landed_rest decodeImage d t) as (X & W & H & U & R & _).
    rewrite X, W, H, U, R.
    assert (B : (lineWidth (landed d t), lineColor (landed d t), lineOpacity (landed d t))
                = (lineWidth s, lineColor s, lineOpacity s))
      by (unfold landed; destruct (decodeImage d); reflexivity).
    rewrite B. repeat split; discriminate.
Qed.

(** X10: what the handlers leave alone. No event changes the size of the
    canvas; pixels change only when a drag strokes the path or a restore
    lands; [undoStack] and [redoStack] change only on a release, an undo, a
    redo or a change of the brush; the brush, in the state and in the
    context, changes only on a change event. *)
Theorem step_frame (s : State) (e : Event) :
  (width (canvas (step s e)) = width (canvas s) /\
   height (canvas (step s e)) = height (canvas s)) /\
  (paints e = false -> canvas (step s e) = canvas s) /\
  (editsHistory e = false ->
   undoStack (step s e) = undoStack s /\ redoStack (step s e) = redoStack s) /\
  (editsBrush e = false ->
   (lineWidth (step s e), lineColor (step s e), lineOpacity (step s e))
   = (lineWidth s, lineColor s, lineOpacity s) /\
   contextBrush (ctx (step s e)) = contextBrush (ctx s)).
Proof. apply step_leaves_alone. Qed.

(** X5: while no stroke is in progress, drags and releases over the canvas
    change nothing at all: no paint, no snapshot, [redoStack] kept. *)
Theorem idle_pointer_is_ignored (es : list Event) (s : State) :
  isDrawing s = false -> forallb dragOrRelease es = true -> run es s = s.
Proof.
  intros Hd. induction es as [|e es IH]; intros F; [reflexivity|].
  cbn [forallb] in F. apply andb_prop in F. destruct F as (Fe & F).
  unfold run in *. cbn [fold_left].
  assert (E : step s e = s).
  { destruct e; try discriminate Fe; cbn [step].
    - unfold draw. now rewrite Hd.
    - unfold endDrawing. now rewrite Hd. }
  rewrite E. now apply IH.
Qed.

(** Dragging extends the path by one [LineTo] per move. *)
Lemma moves_path (moves : list (Z * Z)) (s : State) :
  isDrawing s = true ->
  let s' := run (map (fun p => MouseMove (fst p) (snd p)) moves) s in
  Ctx2D.path (ctx s')
  = Ctx2D.path (ctx s) ++ map (fun p => LineTo (fst p) (snd p)) moves /\
  contextBrush (ctx s') = contextBrush (ctx s).
Proof.
  revert s. induction moves as [|p moves IH]; intros s Hd.
  - cbn. now rewrite app_nil_r.
  - cbn [map]. cbv zeta. unfold run. cbn [fold_left step].
    assert (E : draw (fst p) (snd p) s
                = set_canvas
                    (mkBitmap (width (canvas s)) (height (canvas s))
                       (strokePath (Ctx2D.lineTo (fst p) (snd p) (ctx s)) (canvas s)))
                    (set_ctx (Ctx2D.lineTo (fst p) (snd p) (ctx s)) s)).
    { unfold draw. now rewrite Hd. }
    rewrite E. set (t := set_canvas _ _).
    destruct (IH t Hd) as (P & B). unfold run in P, B. rewrite P, B.
    cbn. now rewrite <- app_assoc.
Qed.

Lemma stroke_result (x y : Z) (moves : list (Z * Z)) (s : State) :
  let s' := run (strokeEvents (x, y, moves)) s in
  Ctx2D.path (ctx s')
  = MoveTo x y :: map (fun p => LineTo (fst p) (snd p)) moves ++ [ClosePath] /\
  isDrawing s' = false /\
  undoStack s' = undoStack s ++ [toDataURL (canvas s')] /\
  redoStack s' = [] /\
  contextBrush (ctx s') = contextBrush (ctx s).
Proof.
  cbv zeta. unfold strokeEvents.
  change (MouseDown x y :: map (fun p => MouseMove (fst p) (snd p)) moves ++ [MouseUp])
    with ([MouseDown x y] ++ map (fun p => MouseMove (fst p) (snd p)) moves ++ [MouseUp]).
  rewrite !(run_app toDataURL decodeImage strokePath).
  change (run [MouseDown x y] s) with (startDrawing x y s).
  destruct (moves_keep_history toDataURL decodeImage strokePath
              moves (startDrawing x y s) eq_refl) as (D & U & _).
  destruct (moves_path moves (startDrawing x y s) eq_refl) as (P & B).
  set (t := run (map _ moves) (startDrawing x y s)) in *.
  change (run [MouseUp] t) with (endDrawing t).
  unfold endDrawing. rewrite D. cbn. rewrite P, U. cbn.
  repeat split. unfold contextBrush in *. cbn in B. exact B.
Qed.

(** X6: a stroke, press to release, from any state (also one left with a
    stroke that was never released) ends with the stroke closed, with a
    path that holds this stroke only, and with the snapshot of the canvas
    as it is now at the end of [undoStack]. *)
Theorem stroke_path_and_snapshot (x y : Z) (moves : list (Z * Z)) (s : State) :
  let s' := run (strokeEvents (x, y, moves)) s in
  Ctx2D.path (ctx s')
  = MoveTo x y :: map (fun p => LineTo (fst p) (snd p)) moves ++ [ClosePath] /\
  isDrawing s' = false /\
  undoStack s' = undoStack s ++ [toDataURL (canvas s')] /\
  redoStack s' = [] /\
  contextBrush (ctx s') = contextBrush (ctx s).
Proof. apply stroke_result. Qed.

(** ** Brush changes *)

Lemma depsChanged_color (v : string) (s : State) :
  depsChanged s (setLineColor v s) = negb (String.eqb (lineColor s) v).
Proof.
  unfold depsChanged. cbn.
  rewrite Z.eqb_refl, (proj2 (Qeq_bool_iff _ _) (Qeq_refl _)).
  now rewrite !andb_true_r.
Qed.

Lemma depsChanged_width (v : Z) (s : State) :
  depsChanged s (setLineWidth v s) = negb (lineWidth s =? v).
Proof.
  unfold depsChanged. cbn.
  now rewrite String.eqb_refl, (proj2 (Qeq_bool_iff _ _) (Qeq_refl _)).
Qed.

Lemma depsChanged_opacity (q : Q) (s : State) :
  depsChanged s (setLineOpacity q s) = negb (Qeq_bool (lineOpacity s) q).
Proof.
  unfold depsChanged. cbn.
  now rewrite String.eqb_refl, Z.eqb_refl, andb_true_r.
Qed.

(** X7: a width outside 3..20 or an opacity outside 1..100 is dropped: the
    state of the component, brush, context, canvas and history, stays as it
    was. *)
Theorem out_of_range_input_is_dropped (v : Z) (s : State) :
  ((v < 3 \/ 20 < v) -> handleChange (WidthInput v) s = s) /\
  ((v < 1 \/ 100 < v) -> handleChange (OpacityInput v) s = s).
Proof.
  split; intros H; unfold handleChange, validateForm.
  - destruct (Z.leb_spec 3 v), (Z.leb_spec v 20); try lia; reflexivity.
  - destruct (Z.leb_spec 1 v), (Z.leb_spec v 100); try lia; reflexivity.
Qed.

(** X8: a width in 3..20, an opacity in 1..100 and any colour are stored in
    the state, the opacity as a hundredth of the value; when the value
    differs from the current one the context gets it too. *)
Theorem in_range_input_reaches_context (s : State) :
  (forall v, 3 <= v <= 20 ->
     let s' := handleChange (WidthInput v) s in
     lineWidth s' = v /\ (v <> lineWidth s -> Ctx2D.lineWidth (ctx s') = v)) /\
  (forall v, 1 <= v <= 100 ->
     let s' := handleChange (OpacityInput v) s in
     lineOpacity s' = (inject_Z v / 100)%Q /\
     (~ (inject_Z v / 100 == lineOpacity s)%Q ->
      Ctx2D.globalAlpha (ctx s') = (inject_Z v / 100)%Q)) /\
  (forall c,
     let s' := handleChange (ColorInput c) s in
     lineColor s' = c /\ (c <> lineColor s -> Ctx2D.strokeStyle (ctx s') = c)).
Proof.
  split; [|split].
  - intros v Hv. cbv zeta. unfold handleChange, validateForm.
    destruct (Z.leb_spec 3 v), (Z.leb_spec v 20); try lia. cbn [andb String.eqb].
    unfold rerender. rewrite depsChanged_width.
    destruct (Z.eqb_spec (lineWidth s) v) as [E|E]; cbn [negb].
    + split; [reflexivity | congruence].
    + split; reflexivity.
  - intros v Hv. cbv zeta. unfold handleChange, validateForm.
    destruct (Z.leb_spec 1 v), (Z.leb_spec v 100); try lia. cbn [andb String.eqb].
    unfold rerender. rewrite depsChanged_opacity.
    destruct (Qeq_bool (lineOpacity s) (inject_Z v / 100)) eqn:E; cbn [negb].
    + split; [reflexivity|]. intros N. apply Qeq_bool_iff in E.
      exfalso. apply N. now symmetry.
    + split; reflexivity.
  - intros c. cbv zeta. unfold handleChange, validateForm. cbn [String.eqb].
    unfold rerender. rewrite depsChanged_color.
    destruct (String.eqb_spec (lineColor s) c) as [E|E]; cbn [negb].
    + split; [reflexivity | congruence].
    + split; reflexivity.
Qed.

Lemma validateForm_width (v : Z) :
  String.eqb (validateForm (WidthInput v)) EmptyString = (3 <=? v) && (v <=? 20).
Proof. unfold validateForm. now destruct ((3 <=? v) && (v <=? 20)). Qed.

Lemma validateForm_opacity (v : Z) :
  String.eqb (validateForm (OpacityInput v)) EmptyString = (1 <=? v) && (v <=? 100).
Proof. unfold validateForm. now destruct ((1 <=? v) && (v <=? 100)). Qed.

Lemma handleChange_history (e : ChangeEvent) (s : State) :
  undoStack (handleChange e s) = undoStack s \/
  undoStack (handleChange e s) = undoStack s ++ [toDataURL (canvas s)].
Proof.
  unfold handleChange. destruct (String.eqb (validateForm e) EmptyString);
    [|now left].
  destruct e as [value|value|value|name]; unfold rerender; [| | |now left].
  - destruct (depsChanged s (setLineColor value s)); [now right | now left].
  - destruct (depsChanged s (setLineWidth value s)); [now right | now left].
  - destruct (depsChanged s (setLineOpacity (inject_Z value / 100) s));
      [now right | now left].
Qed.

(** ** Invariants of the reachable states *)

Lemma reachable_bottom (s : State) :
  reachable s -> exists rest, undoStack s = toDataURL (blankCanvas 1280 720) :: rest.
Proof.
  intros R. induction R as [|s e R (rest & E)]; [now exists []|].
  destruct e as [x y|x y| | | |c|i]; cbn [step].
  - now exists rest.
  - unfold draw. destruct (isDrawing s); now exists rest.
  - unfold endDrawing. destruct (isDrawing s); [|now exists rest].
    cbn. rewrite E. now eexists.
  - destruct (Nat.ltb_spec 1 (length (undoStack s))) as [G|G].
    + destruct (two_last _ G) as (older & top & lastState & E').
      rewrite (handleUndo_eq s older top lastState E'). cbn.
      rewrite E' in E. destruct older as [|a older]; cbn in E |- *.
      * injection E as -> _. now eexists.
      * injection E as -> _. now eexists.
    + rewrite handleUndo_noop by assumption. now exists rest.
  - destruct (redoStack s) as [|nextState rs] eqn:E'.
    + rewrite handleRedo_noop by assumption. now exists rest.
    + rewrite (handleRedo_eq s nextState rs E'). cbn. rewrite E. now eexists.
  - destruct (handleChange_history c s) as [-> | ->]; rewrite E; now eexists.
  - unfold imageLands. destruct (nth_error (loading s) i) as [d|]; [|now exists rest].
    destruct (landed_rest decodeImage d (set_loading (removeAt i (loading s)) s))
      as (_ & _ & _ & -> & _).
    now exists rest.
Qed.

(** X1: in every state the component can reach, [undoStack] is not empty
    and its first entry is the snapshot of the blank 1280 x 720 canvas taken
    by the first effect: no handler removes or replaces it. *)
Theorem history_starts_blank (s : State) :
  reachable s -> exists rest, undoStack s = toDataURL (blankCanvas 1280 720) :: rest.
Proof. apply reachable_bottom. Qed.

(** X9: in every state the component can reach, the width is in 3..20 and
    the opacity in 0.01..1, whatever values the change events carried, and
    the context has the width of the state as its [lineWidth] and round
    caps and joins. *)
Theorem reachable_brush_in_range (s : State) :
  reachable s ->
  3 <= lineWidth s <= 20 /\
  ((1 # 100) <= lineOpacity s /\ lineOpacity s <= 1)%Q /\
  Ctx2D.lineWidth (ctx s) = lineWidth s /\
  Ctx2D.lineCap (ctx s) = "round"%string /\
  Ctx2D.lineJoin (ctx s) = "round"%string.
Proof.
  intros R. induction R as [|s e R IH].
  - cbn. conjuncts; unfold Qle; cbn; lia.
  - destruct (editsBrush e) eqn:K.
    + destruct e as [| | | | |c|]; try discriminate K. cbn [step].
      destruct IH as (W & (O1 & O2) & CW & CC & CJ).
      unfold handleChange.
      destruct c as [v|v|v|name].
      * cbn [validateForm String.eqb]. unfold rerender.
        destruct (depsChanged s (setLineColor v s)); cbn; conjuncts.
      * rewrite validateForm_width.
        destruct (Z.leb_spec 3 v), (Z.leb_spec v 20); cbn [andb]; [|conjuncts..].
        unfold rerender. rewrite depsChanged_width.
        destruct (Z.eqb_spec (lineWidth s) v) as [E|E]; cbn [negb].
        -- cbn. subst v. conjuncts.
        -- cbn. conjuncts.
      * rewrite validateForm_opacity.
        destruct (Z.leb_spec 1 v), (Z.leb_spec v 100); cbn [andb]; [|conjuncts..].
        assert (Q1 : ((1 # 100) <= inject_Z v / 100)%Q)
          by (unfold Qle, Qdiv, Qmult, Qinv, inject_Z; cbn; lia).
        assert (Q2 : (inject_Z v / 100 <= 1)%Q)
          by (unfold Qle, Qdiv, Qmult, Qinv, inject_Z; cbn; lia).
        unfold rerender.
        destruct (depsChanged s (setLineOpacity (inject_Z v / 100) s)); cbn; conjuncts.
      * cbn [validateForm String.eqb]. conjuncts.
    + destruct (step_leaves_alone s e) as (_ & _ & _ & F).
      destruct (F K) as (B & C). injection B as Bw _ Bo.
      unfold contextBrush in C. injection C as Cc Cj _ _ Cw.
      rewrite Bw, Bo, Cc, Cj, Cw. exact IH.
Qed.

(** ** Restores that land late *)

Lemma step_loading (s : State) (e : Event) :
  pointerEvent e = true -> loading (step s e) = loading s.
Proof.
  destruct e; try discriminate; intros _; cbn [step].
  - reflexivity.
  - unfold draw. now destruct (isDrawing s).
  - unfold endDrawing. now destruct (isDrawing s).
Qed.

Lemma pointer_events_frame (es : list Event) (s : State) :
  forallb pointerEvent es = true ->
  loading (run es s) = loading s /\
  width (canvas (run es s)) = width (canvas s) /\
  height (canvas (run es s)) = height (canvas s).
Proof.
  revert s. induction es as [|e es IH]; intros s F; [repeat split|].
  cbn [forallb] in F. apply andb_prop in F. destruct F as (Fe & F).
  unfold run in *. cbn [fold_left].
  destruct (IH (step s e) F) as (L & W & H).
  destruct (step_leaves_alone s e) as ((W' & H') & _).
  rewrite L, W, H. repeat split; try assumption. now apply step_loading.
Qed.

Lemma strokeEvents_pointer (st : Z * Z * list (Z * Z)) :
  forallb pointerEvent (strokeEvents st) = true.
Proof.
  destruct st as [[x y] moves]. unfold strokeEvents. cbn [forallb pointerEvent andb].
  rewrite forallb_app. cbn. rewrite andb_true_r.
  induction moves as [|p moves IH]; [reflexivity | exact IH].
Qed.

(** The load started last is the one the canvas shows when all have
    settled. *)
Lemma settle_shows_last (s : State) (l : list DataURL) (d : DataURL) (img : Bitmap) :
  loading s = l ++ [d] ->
  decodeImage d = Some img ->
  width img = width (canvas s) -> height img = height (canvas s) ->
  samePixels (canvas (settle s)) img.
Proof.
  intros L D W H.
  assert (E : s = restoreState d (set_loading l s))
    by (destruct s; cbn in *; subst; reflexivity).
  rewrite E. now apply restore_lands.
Qed.

(** X11: a stroke completed while the restore of an undo is still loading
    is wiped from the canvas when the restore lands: the canvas then shows
    the snapshot the undo went back to, while [undoStack] ends with the
    snapshot that has the stroke. *)
Theorem late_restore_wipes_stroke
    (s : State) (older : list DataURL) (top lastState : DataURL) (img : Bitmap)
    (x y : Z) (moves : list (Z * Z)) :
  undoStack s = older ++ [top; lastState] ->
  decodeImage top = Some img ->
  width img = width (canvas s) -> height img = height (canvas s) ->
  let painted := run (strokeEvents (x, y, moves)) (handleUndo s) in
  samePixels (canvas (settle painted)) img /\
  undoStack (settle painted) = older ++ [top; toDataURL (canvas painted)] /\
  redoStack (settle painted) = [].
Proof.
  intros E D W H. cbv zeta.
  assert (Hu : undoStack (handleUndo s) = older ++ [top]
               /\ loading (handleUndo s) = loading s ++ [top]
               /\ canvas (handleUndo s) = canvas s)
    by (rewrite (handleUndo_eq s older top lastState E); repeat split).
  destruct Hu as (Uu & Lu & Cu).
  destruct (stroke_result x y moves (handleUndo s)) as (_ & _ & U & Rd & _).
  destruct (pointer_events_frame (strokeEvents (x, y, moves)) (handleUndo s)
              (strokeEvents_pointer _)) as (L & W' & H').
  set (painted := run (strokeEvents (x, y, moves)) (handleUndo s)) in *.
  destruct (settle_rest toDataURL decodeImage strokePath painted)
    as (_ & _ & _ & -> & -> & _).
  split; [|split; [rewrite U, Uu; now rewrite <- app_assoc | exact Rd]].
  apply settle_shows_last with (l := loading s) (d := top); congruence.
Qed.

Lemma handleUndo_restores_top (s : State) :
  (1 < length (undoStack s))%nat \/
  lastElement (loading s) = lastElement (undoStack s) ->
  lastElement (loading (handleUndo s)) = lastElement (undoStack (handleUndo s)).
Proof.
  intros H. destruct (Nat.ltb_spec 1 (length (undoStack s))) as [G|G].
  - destruct (two_last _ G) as (older & top & lastState & E).
    rewrite (handleUndo_eq s older top lastState E). cbn.
    now rewrite !lastElement_snoc.
  - rewrite handleUndo_noop by assumption. destruct H as [H|H]; [lia | exact H].
Qed.

Lemma undos_canvas (n : nat) (s : State) :
  canvas (Nat.iter n handleUndo s) = canvas s.
Proof.
  induction n as [|n IH]; [reflexivity|]. rewrite Nat.iter_succ.
  destruct (handleUndo_frame (Nat.iter n handleUndo s)) as (C & _). congruence.
Qed.

(** X12: with a lossless codec, undoing everything brings back the blank
    canvas: from a reachable state with more than one snapshot, once the
    restores of enough undos have settled in the order they were started,
    every pixel is transparent. *)
Theorem undo_all_shows_blank_canvas (n : nat) (s : State) :
  losslessCodec toDataURL decodeImage ->
  reachable s ->
  (1 < length (undoStack s))%nat ->
  (length (undoStack s) - 1 <= n)%nat ->
  samePixels (canvas (settle (Nat.iter n handleUndo s))) (blankCanvas 1280 720).
Proof.
  intros lossless R G N.
  destruct (reachable_bottom s R) as (rest & E).
  destruct (undos_reach_bottom n s _ rest E) as (U & _);
    [rewrite E in N; cbn in N; lia|].
  assert (Q : lastElement (loading (Nat.iter n handleUndo s))
              = lastElement (undoStack (Nat.iter n handleUndo s))).
  { destruct n as [|n]; [lia|]. clear N U.
    induction n as [|n IH].
    - apply handleUndo_restores_top. now left.
    - rewrite Nat.iter_succ. apply handleUndo_restores_top. now right. }
  rewrite U in Q. cbn in Q.
  destruct (lastElement_split _ _ Q) as (l & L).
  destruct (reachable_snapshots_fit toDataURL decodeImage strokePath s
              (lossless_sized toDataURL decodeImage lossless) R) as (W & H & _).
  destruct (lossless (blankCanvas 1280 720)) as (img & D & P).
  apply samePixels_trans with (b := img); [|exact P].
  destruct P as (Wi & Hi & _). cbn in Wi, Hi.
  apply settle_shows_last with (l := l) (d := toDataURL (blankCanvas 1280 720)).
  - exact L.
  - exact D.
  - rewrite undos_canvas. congruence.
  - rewrite undos_canvas. congruence.
Qed.

(** X13: a change of the brush, accepted or not, never paints and never
    interrupts a stroke: the pixels, [isDrawing], the path under
    construction, [redoStack] and the pending restores stay as they were,
    and [undoStack] is either unchanged or one snapshot of the canvas
    longer. *)
Theorem brush_change_keeps_stroke (e : ChangeEvent) (s : State) :
  let s' := handleChange e s in
  canvas s' = canvas s /\
  isDrawing s' = isDrawing s /\
  Ctx2D.path (ctx s') = Ctx2D.path (ctx s) /\
  redoStack s' = redoStack s /\
  loading s' = loading s /\
  (undoStack s' = undoStack s \/
   undoStack s' = undoStack s ++ [toDataURL (canvas s)]).
Proof.
  cbv zeta. destruct (handleChange_frame e s) as (A & B & C & D & E).
  repeat split; try assumption. apply handleChange_history.
Qed.

(** X14: with a lossless codec, undo and redo right after a completed
    stroke give back [undoStack] and [redoStack] at once; the redo starts
    the restore of the snapshot with the stroke, and the canvas has the
    pixels it had after the stroke whenever that load settles, in
    particular once all restores have settled in the order they were
    started. *)
Theorem stroke_undo_redo_round_trip
    (x y : Z) (moves : list (Z * Z)) (s0 : State) :
  losslessCodec toDataURL decodeImage ->
  undoStack s0 <> [] ->
  let s := run (strokeEvents (x, y, moves)) s0 in
  let s' := handleRedo (handleUndo s) in
  undoStack s' = undoStack s /\ redoStack s' = redoStack s /\
  lastElement (loading s') = Some (toDataURL (canvas s)) /\
  (forall (t : State) (i : nat),
     nth_error (loading t) i = Some (toDataURL (canvas s)) ->
     width (canvas t) = width (canvas s) -> height (canvas t) = height (canvas s) ->
     samePixels (canvas (imageLands i t)) (canvas s)) /\
  samePixels (canvas (settle s')) (canvas s).
Proof.
  intros lossless N. cbv zeta.
  destruct (stroke_result x y moves s0) as (_ & _ & U & Rd & _).
  remember (run (strokeEvents (x, y, moves)) s0) as s eqn:Es. clear Es.
  destruct (exists_last N) as (older & top & E).
  assert (E' : undoStack s = older ++ [top; toDataURL (canvas s)])
    by (rewrite U, E; now rewrite <- app_assoc).
  destruct (lossless (canvas s)) as (img & D & P).
  pose proof P as (Wi & Hi & _).
  rewrite (handleUndo_eq s older top _ E').
  set (u := restoreState top _).
  rewrite (handleRedo_eq u (toDataURL (canvas s)) (redoStack s)) by reflexivity.
  split; [cbn; now rewrite E', <- app_assoc|]. split; [reflexivity|].
  split; [cbn; now rewrite lastElement_snoc|]. split.
  - intros t i Hn Wt Ht. apply samePixels_trans with (b := img); [|exact P].
    apply (imageLands_shows decodeImage t i (toDataURL (canvas s))); congruence.
  - apply samePixels_trans with (b := img); [|exact P].
    apply restore_lands; [exact D | exact Wi | exact Hi].
Qed.

(** X15: when the data URL of a bitmap decodes to an image of the bitmap's
    size, in every state the component can reach the canvas is 1280 x 720
    and every snapshot in [undoStack], in [redoStack] and among the pending
    restores decodes to an image of that size. *)
Theorem snapshots_have_canvas_size (s : State) :
  (forall b, decodesAt decodeImage (width b) (height b) (toDataURL b)) ->
  reachable s ->
  width (canvas s) = 1280 /\ height (canvas s) = 720 /\
  Forall (decodesAt decodeImage 1280 720) (undoStack s ++ redoStack s ++ loading s).
Proof.
  intros sized R.
  destruct (reachable_snapshots_fit toDataURL decodeImage strokePath s sized R)
    as (W & H & U & D & L).
  split; [exact W|]. split; [exact H|].
  apply Forall_app. split; [exact U|]. apply Forall_app. now split.
Qed.

End Coverage.

(** ** The model at work: the scenarios of the specification *)

(** initialize, stroke A, stroke B, undo, undo: one snapshot left, two to
    redo, a blank canvas; then redo: stroke A only. *)
Example scenario_two_undos_one_redo :
  let strokeA := strokeEvents (1, 1, [(2, 2)]) in
  let strokeB := strokeEvents (5, 5, [(6, 6)]) in
  let undone := Demo.run (strokeA ++ strokeB
                          ++ [ClickUndo; ImageLands 0; ClickUndo; ImageLands 0])
                         Demo.mounted in
  let redone := Demo.run [ClickRedo; ImageLands 0] undone in
  (length (undoStack undone), length (redoStack undone)) = (1%nat, 2%nat) /\
  (pixelAt (canvas undone) 2 2, pixelAt (canvas undone) 6 6)
  = (transparentBlack, transparentBlack) /\
  (length (undoStack redone), length (redoStack redone)) = (2%nat, 1%nat) /\
  (pixelAt (canvas redone) 2 2, pixelAt (canvas redone) 6 6)
  = (mkPixel 0 0 0 26, transparentBlack).
Proof. vm_compute. repeat split. Qed.

(** initialize, stroke A, undo, stroke B: nothing to redo, two snapshots. *)
Example scenario_undo_then_new_stroke :
  let s := Demo.run (strokeEvents (5, 5, [(6, 6)])) Demo.undoneA in
  (length (undoStack s), length (redoStack s)) = (2%nat, 0%nat) /\
  (pixelAt (canvas s) 2 2, pixelAt (canvas s) 6 6)
  = (transparentBlack, mkPixel 0 0 0 26).
Proof. vm_compute. repeat split. Qed.

(** The codec of the small browser is lossless. *)
Lemma demo_lossless : losslessCodec Demo.toDataURL Demo.decodeImage.
Proof. intros b. exists b. repeat split. Qed.

(** So is a codec whose encoder keeps the pixels inside the bitmap only. *)
Lemma cropping_codec_lossless : losslessCodec Demo.croppedDataURL Demo.decodeImage.
Proof.
  intros b. exists (Demo.crop b). split; [reflexivity|].
  split; [reflexivity|]. split; [reflexivity|].
  intros x y Hin. cbn in *. unfold inside in Hin. cbn in Hin.
  unfold inside. now rewrite Hin.
Qed.

(** Whatever the events, the history of the small browser holds snapshots
    of the canvas's size only. *)
Lemma demo_snapshots_fit (es : list Event) :
  let s := Demo.run es Demo.mounted in
  Forall (decodesAt Demo.decodeImage 1280 720) (undoStack s ++ redoStack s).
Proof.
  destruct (reachable_snapshots_fit Demo.toDataURL Demo.decodeImage Demo.strokePath
              (Demo.run es Demo.mounted)) as (_ & _ & U & D & _).
  - apply lossless_sized, demo_lossless.
  - apply reachable_run. constructor.
  - apply Forall_app. now split.
Qed.

(** ** The theorems at concrete states *)

Lemma undo_redo_round_trip_witness :
  let s := Demo.committedA in
  let s' := handleRedo (handleUndo s) in
  undoStack s' = undoStack s /\
  redoStack s' = redoStack s /\
  samePixels (canvas (Demo.settle s')) (canvas s).
Proof.
  apply (undo_redo_round_trip Demo.toDataURL Demo.decodeImage Demo.strokePath
           Demo.committedA (Some (canvas Demo.committedA)) (canvas Demo.committedA)).
  - vm_compute. lia.
  - reflexivity.
  - reflexivity.
  - repeat split.
Defined.

(** C1 as stated fails: with stroke B painted and not yet committed, undo
    and redo bring back the snapshot of stroke A, without the paint of B. *)
Lemma undo_redo_loses_uncommitted_paint :
  let s := Demo.paintingB in
  (1 < length (undoStack s))%nat /\
  ~ samePixels (canvas (Demo.settle (handleRedo (handleUndo s)))) (canvas s).
Proof.
  split; [vm_compute; lia|].
  intros (_ & _ & P).
  assert (I : inside (canvas (Demo.settle (handleRedo (handleUndo Demo.paintingB)))) 6 6
              = true) by (vm_compute; reflexivity).
  specialize (P 6 6 I). vm_compute in P. discriminate P.
Qed.

(** C3 as stated fails: a change of the brush colour after an undo leaves
    two entries in [undoStack] and the undone snapshot in [redoStack]. *)
Lemma config_change_keeps_history :
  let s := Demo.step Demo.undoneA (Change (ColorInput "#ff0000")) in
  length (undoStack s) = 2%nat /\ length (redoStack s) = 1%nat /\
  ~ (length (undoStack s) = 1%nat /\ redoStack s = []).
Proof.
  split; [reflexivity|]. split; [reflexivity|].
  intros [H _]. vm_compute in H. discriminate H.
Qed.

Lemma endDrawing_clears_redoStack_witness :
  let s := handleUndo Demo.paintingB in
  isDrawing s = true /\ length (redoStack s) = 1%nat /\
  redoStack (endDrawing Demo.toDataURL s) = [] /\
  undoStack (endDrawing Demo.toDataURL s) = undoStack s ++ [Demo.toDataURL (canvas s)] /\
  handleRedo (endDrawing Demo.toDataURL s) = endDrawing Demo.toDataURL s /\
  forall st, redoStack (Demo.run (strokeEvents st) s) = [].
Proof.
  split; [reflexivity|]. split; [reflexivity|].
  apply (endDrawing_clears_redoStack Demo.toDataURL Demo.decodeImage Demo.strokePath
           (handleUndo Demo.paintingB)).
  reflexivity.
Defined.

Lemma handleUndo_pops_and_restores_witness :
  let s := Demo.undoneR in
  let a := Demo.toDataURL (canvas Demo.strokeP) in
  let ab := Demo.toDataURL (canvas Demo.strokesPQ) in
  (length (redoStack s) = 1%nat /\ length (loading s) = 1%nat) /\
  undoStack (handleUndo s) = [Demo.toDataURL (blankCanvas 1280 720)] ++ [a] /\
  redoStack (handleUndo s) = ab :: redoStack s /\
  loading (handleUndo s) = loading s ++ [a] /\
  samePixels (canvas (imageLands Demo.decodeImage 1 (handleUndo s)))
             (canvas Demo.strokeP) /\
  pixelAt (canvas Demo.strokeP) 2 2 = mkPixel 0 0 0 26 /\
  handleUndo Demo.mounted = Demo.mounted.
Proof.
  cbv zeta. split; [split; vm_compute; reflexivity|].
  destruct (proj1 (handleUndo_pops_and_restores Demo.decodeImage Demo.undoneR))
    as (older & top & lastState & E & U & Rd & L & P); [vm_compute; lia|].
  assert (K : undoStack Demo.undoneR
              = [Demo.toDataURL (blankCanvas 1280 720)]
                ++ [Demo.toDataURL (canvas Demo.strokeP);
                    Demo.toDataURL (canvas Demo.strokesPQ)])
    by (vm_compute; reflexivity).
  rewrite K in E. destruct (two_last_inv _ _ _ _ _ _ E) as (-> & -> & ->).
  split; [exact U|]. split; [exact Rd|]. split; [exact L|].
  split; [|split; [vm_compute; reflexivity|]].
  - assert (Hw : width (canvas Demo.strokeP) = width (canvas Demo.undoneR))
      by (vm_compute; reflexivity).
    assert (Hh : height (canvas Demo.strokeP) = height (canvas Demo.undoneR))
      by (vm_compute; reflexivity).
    assert (Hn : nth_error (loading (handleUndo Demo.undoneR)) 1
                 = Some (Demo.toDataURL (canvas Demo.strokeP)))
      by (rewrite L; vm_compute; reflexivity).
    assert (Wt : width (canvas (handleUndo Demo.undoneR)) = width (canvas Demo.undoneR))
      by (vm_compute; reflexivity).
    assert (Ht : height (canvas (handleUndo Demo.undoneR)) = height (canvas Demo.undoneR))
      by (vm_compute; reflexivity).
    exact (P (canvas Demo.strokeP) eq_refl Hw Hh
             (handleUndo Demo.undoneR) 1%nat Hn Wt Ht).
  - apply (proj2 (handleUndo_pops_and_restores Demo.decodeImage Demo.mounted)).
    vm_compute. lia.
Defined.

Lemma handleUndo_at_bottom_witness :
  length (undoStack Demo.mounted) = 1%nat /\ handleUndo Demo.mounted = Demo.mounted.
Proof.
  split; [reflexivity|].
  apply (handleUndo_at_bottom Demo.toDataURL Demo.decodeImage Demo.strokePath
           Demo.mounted).
  reflexivity.
Defined.


Lemma restore_copies_at_full_opacity_witness :
  let a := canvas Demo.committedA in
  let s' := Nat.iter 3 (fun t => settle Demo.toDataURL Demo.decodeImage Demo.strokePath
                                   (restoreState (Demo.toDataURL a) t))
                     Demo.paintingB in
  Ctx2D.globalAlpha (ctx Demo.paintingB) = (1 # 10)%Q /\
  pixelAt a 2 2 = mkPixel 0 0 0 49 /\
  pixelAt (canvas Demo.paintingB) 6 6 = mkPixel 0 0 0 26 /\
  samePixels (canvas s') a /\ Ctx2D.globalAlpha (ctx s') = (1 # 10)%Q.
Proof.
  cbv zeta. split; [vm_compute; reflexivity|].
  split; [vm_compute; reflexivity|]. split; [vm_compute; reflexivity|].
  assert (Hw : width (canvas Demo.committedA) = width (canvas Demo.paintingB))
    by (vm_compute; reflexivity).
  assert (Hh : height (canvas Demo.committedA) = height (canvas Demo.paintingB))
    by (vm_compute; reflexivity).
  assert (Ha : Ctx2D.globalAlpha (ctx Demo.paintingB) = (1 # 10)%Q)
    by (vm_compute; reflexivity).
  exact (restore_copies_at_full_opacity
           Demo.toDataURL Demo.decodeImage Demo.strokePath
           Demo.paintingB (Demo.toDataURL (canvas Demo.committedA))
           (canvas Demo.committedA) (1 # 10)%Q Ha eq_refl Hw Hh 2%nat).
Defined.

Lemma undecodable_snapshot_leaves_canvas_witness :
  Demo.decodeImage None = None /\
  Demo.settle (restoreState None Demo.paintingB) = Demo.settle Demo.paintingB /\
  imageSettles Demo.decodeImage (restoreState None Demo.paintingB) = Demo.paintingB.
Proof.
  split; [reflexivity|].
  destruct (undecodable_snapshot_leaves_canvas
              Demo.toDataURL Demo.decodeImage Demo.strokePath
              Demo.paintingB None eq_refl) as (_ & S & I).
  split; [exact S | apply I; reflexivity].
Defined.

(** ** More theorems at concrete states *)

Lemma demo_reachable (es : list Event) :
  reachable Demo.toDataURL Demo.decodeImage Demo.strokePath (Demo.run es Demo.mounted).
Proof. apply reachable_run. constructor. Qed.

Lemma demo_reachable_PQR :
  reachable Demo.toDataURL Demo.decodeImage Demo.strokePath Demo.strokesPQR.
Proof.
  unfold Demo.strokesPQR, Demo.strokesPQ, Demo.strokeP, Demo.run.
  repeat apply reachable_run. constructor.
Qed.

Lemma history_starts_blank_witness :
  exists rest, undoStack Demo.paintingB = Demo.toDataURL (blankCanvas 1280 720) :: rest.
Proof.
  apply (history_starts_blank Demo.toDataURL Demo.decodeImage Demo.strokePath
           Demo.paintingB).
  apply demo_reachable.
Defined.

Lemma undos_then_redos_round_trip_witness :
  let s := Demo.committedA in
  let s' := Nat.iter 1 handleRedo (Nat.iter 1 handleUndo s) in
  (1 < length (undoStack s))%nat /\
  undoStack s' = undoStack s /\ redoStack s' = redoStack s.
Proof.
  split; [vm_compute; lia|].
  apply (undos_then_redos_round_trip 1 Demo.committedA).
  vm_compute. lia.
Defined.

Lemma undo_all_and_redo_all_witness :
  (undoStack (Nat.iter 3 handleUndo Demo.committedA)
   = [Demo.toDataURL (blankCanvas 1280 720)] /\
   redoStack (Nat.iter 3 handleUndo Demo.committedA)
   = [Demo.toDataURL (canvas Demo.committedA)] ++ redoStack Demo.committedA) /\
  (undoStack (Nat.iter 2 handleRedo Demo.undoneA)
   = undoStack Demo.undoneA ++ redoStack Demo.undoneA /\
   redoStack (Nat.iter 2 handleRedo Demo.undoneA) = []).
Proof.
  split.
  - apply (proj1 (undo_all_and_redo_all 3 Demo.committedA)
             (Demo.toDataURL (blankCanvas 1280 720))
             [Demo.toDataURL (canvas Demo.committedA)]).
    + reflexivity.
    + simpl. lia.
  - apply (proj2 (undo_all_and_redo_all 2 Demo.undoneA)).
    vm_compute. lia.
Defined.

Lemma idle_pointer_is_ignored_witness :
  isDrawing Demo.committedA = false /\
  Demo.run [MouseMove 4 4; MouseUp; MouseMove 5 5] Demo.committedA = Demo.committedA.
Proof.
  split; [reflexivity|].
  apply (idle_pointer_is_ignored Demo.toDataURL Demo.decodeImage Demo.strokePath);
    reflexivity.
Defined.

Lemma out_of_range_input_is_dropped_witness :
  handleChange Demo.toDataURL (WidthInput 2) Demo.paintingB = Demo.paintingB /\
  handleChange Demo.toDataURL (OpacityInput 101) Demo.paintingB = Demo.paintingB.
Proof.
  split.
  - apply (proj1 (out_of_range_input_is_dropped Demo.toDataURL 2 Demo.paintingB)). lia.
  - apply (proj2 (out_of_range_input_is_dropped Demo.toDataURL 101 Demo.paintingB)). lia.
Defined.

Lemma in_range_input_reaches_context_witness :
  (let s' := handleChange Demo.toDataURL (WidthInput 20) Demo.mounted in
   lineWidth s' = 20 /\ Ctx2D.lineWidth (ctx s') = 20) /\
  (let s' := handleChange Demo.toDataURL (OpacityInput 1) Demo.mounted in
   lineOpacity s' = (inject_Z 1 / 100)%Q /\
   Ctx2D.globalAlpha (ctx s') = (inject_Z 1 / 100)%Q).
Proof.
  destruct (in_range_input_reaches_context Demo.toDataURL Demo.mounted) as (W & O & _).
  split.
  - destruct (W 20 ltac:(lia)) as (A & B). split; [exact A|].
    apply B. vm_compute. discriminate.
  - destruct (O 1 ltac:(lia)) as (A & B). split; [exact A|].
    apply B. vm_compute. discriminate.
Defined.

Lemma reachable_brush_in_range_witness :
  let s := Demo.run [Change (WidthInput 12); Change (OpacityInput 250);
                     Change (ColorInput "#ff0000"); MouseDown 1 1; MouseMove 2 2;
                     MouseUp; ClickUndo; ImageLands 3; ImageLands 0]
                    Demo.mounted in
  3 <= lineWidth s <= 20 /\
  ((1 # 100) <= lineOpacity s /\ lineOpacity s <= 1)%Q /\
  Ctx2D.lineWidth (ctx s) = lineWidth s /\
  Ctx2D.lineCap (ctx s) = "round"%string /\
  Ctx2D.lineJoin (ctx s) = "round"%string.
Proof.
  exact (reachable_brush_in_range Demo.toDataURL Demo.decodeImage Demo.strokePath
           _ (demo_reachable _)).
Defined.

Lemma step_frame_witness :
  canvas (Demo.step Demo.paintingB ClickUndo) = canvas Demo.paintingB /\
  (undoStack (Demo.step Demo.paintingB (MouseMove 7 7)) = undoStack Demo.paintingB /\
   redoStack (Demo.step Demo.paintingB (MouseMove 7 7)) = redoStack Demo.paintingB) /\
  contextBrush (ctx (Demo.step Demo.paintingB (ImageLands 0)))
  = contextBrush (ctx Demo.paintingB).
Proof.
  split; [|split].
  - apply (step_frame Demo.toDataURL Demo.decodeImage Demo.strokePath
             Demo.paintingB ClickUndo). reflexivity.
  - apply (step_frame Demo.toDataURL Demo.decodeImage Demo.strokePath
             Demo.paintingB (MouseMove 7 7)). reflexivity.
  - apply (step_frame Demo.toDataURL Demo.decodeImage Demo.strokePath
             Demo.paintingB (ImageLands 0)). reflexivity.
Defined.

Lemma late_restore_wipes_stroke_witness :
  let painted := Demo.run (strokeEvents (5, 5, [(6, 6)])) (handleUndo Demo.committedA) in
  samePixels (canvas (Demo.settle painted)) (blankCanvas 1280 720) /\
  undoStack (Demo.settle painted)
  = [] ++ [Demo.toDataURL (blankCanvas 1280 720); Demo.toDataURL (canvas painted)] /\
  redoStack (Demo.settle painted) = [].
Proof.
  apply (late_restore_wipes_stroke Demo.toDataURL Demo.decodeImage Demo.strokePath
           Demo.committedA [] (Demo.toDataURL (blankCanvas 1280 720))
           (Demo.toDataURL (canvas Demo.committedA)) (blankCanvas 1280 720)
           5 5 [(6, 6)]); reflexivity.
Defined.

Lemma undo_all_shows_blank_canvas_witness :
  samePixels (canvas (settle Demo.toDataURL Demo.decodeImage Demo.strokePath
                        (Nat.iter 4 handleUndo Demo.strokesPQR)))
             (blankCanvas 1280 720).
Proof.
  assert (G : (1 < length (undoStack Demo.strokesPQR))%nat) by (vm_compute; lia).
  assert (N : (length (undoStack Demo.strokesPQR) - 1 <= 4)%nat) by (vm_compute; lia).
  exact (undo_all_shows_blank_canvas Demo.toDataURL Demo.decodeImage Demo.strokePath
           4 Demo.strokesPQR demo_lossless demo_reachable_PQR G N).
Defined.

Lemma stroke_undo_redo_round_trip_witness :
  let s := Demo.run (strokeEvents (5, 5, [(6, 6)])) Demo.paintingB in
  let s' := handleRedo (handleUndo s) in
  undoStack s' = undoStack s /\ redoStack s' = redoStack s /\
  lastElement (loading s') = Some (Demo.toDataURL (canvas s)) /\
  (forall (t : Demo.State) (i : nat),
     nth_error (loading t) i = Some (Demo.toDataURL (canvas s)) ->
     width (canvas t) = width (canvas s) -> height (canvas t) = height (canvas s) ->
     samePixels (canvas (imageLands Demo.decodeImage i t)) (canvas s)) /\
  samePixels (canvas (settle Demo.toDataURL Demo.decodeImage Demo.strokePath s'))
             (canvas s).
Proof.
  apply (stroke_undo_redo_round_trip Demo.toDataURL Demo.decodeImage Demo.strokePath
           5 5 [(6, 6)] Demo.paintingB).
  - apply demo_lossless.
  - vm_compute. discriminate.
Defined.

Lemma snapshots_have_canvas_size_witness :
  let s := Demo.run [MouseDown 1 1; MouseMove 2 2; MouseUp; ClickUndo; ClickRedo]
                    Demo.mounted in
  width (canvas s) = 1280 /\ height (canvas s) = 720 /\
  Forall (decodesAt Demo.decodeImage 1280 720)
         (undoStack s ++ redoStack s ++ loading s).
Proof.
  exact (snapshots_have_canvas_size Demo.toDataURL Demo.decodeImage Demo.strokePath
           _ (lossless_sized _ _ demo_lossless) (demo_reachable _)).
Defined.
